(** * backend/main.py: the Kafka assistant endpoint

    A shallow embedding of [src/backend/main.py]: the topic extractor
    ([extract_topic_from_code]), the completion parser
    ([ask_openai_for_code]), the executor ([run_code_safely]) and the
    request handler ([kafka_agent]) with its process-wide [last_topic]
    slot, followed by the properties of the specification that concern
    them.

    Python strings are modelled as lists of characters.  A character is
    an [ascii], read as a code point below 256; the whitespace and case
    tables below are those of [str.isspace] and [str.lower] on that
    range. *)

From Stdlib Require Import Ascii String ZArith List Floats DecimalString.
From stdpp Require Import base option list gmap strings.

Set Warnings "-register-all".

Abbreviation str := (list ascii).

(** String literals are read as Python strings. *)
Coercion list_ascii_of_string : string >-> list.

(** ** String builtins *)

Module PyStr.

(** The two quote characters and the newline, by code point. *)
Definition dq : ascii := "034"%char.
Definition sq : ascii := "039"%char.
Definition nl : ascii := "010"%char.

(** [str.isspace] on one character: TAB..CR, FS..US, space, NEL, NBSP. *)
Definition isspace (c : ascii) : bool :=
  let n := N_of_ascii c in
  ((9 <=? n) && (n <=? 13) || (28 <=? n) && (n <=? 32)
   || (n =? 133) || (n =? 160))%N.

(** [str.lower] on one character: A..Z and the Latin-1 capitals
    (all of 192..222 but the multiplication sign 215) move up by 32. *)
Definition lower_char (c : ascii) : ascii :=
  let n := N_of_ascii c in
  if ((65 <=? n) && (n <=? 90)
      || (192 <=? n) && (n <=? 222) && negb (n =? 215))%N
  then ascii_of_N (n + 32) else c.

Definition lower (s : str) : str := map lower_char s.

(** Dropping a run of characters from the left, from the right, and
    from both ends; [s.strip()] and [s.strip(chars)] are instances. *)
Fixpoint lstrip_by (p : ascii -> bool) (s : str) : str :=
  match s with
  | [] => []
  | c :: s' => if p c then lstrip_by p s' else s
  end.

Definition rstrip_by (p : ascii -> bool) (s : str) : str :=
  reverse (lstrip_by p (reverse s)).

Definition strip_by (p : ascii -> bool) (s : str) : str :=
  rstrip_by p (lstrip_by p s).

Definition strip (s : str) : str := strip_by isspace s.

Definition strip_chars (chars : str) (s : str) : str :=
  strip_by (fun c => bool_decide (c ∈ chars)) s.

(** [s.startswith(p)] and [s.endswith(p)]. *)
Fixpoint startswith (s p : str) {struct p} : bool :=
  match p, s with
  | [], _ => true
  | _ :: _, [] => false
  | a :: p', c :: s' => bool_decide (a = c) && startswith s' p'
  end.

Definition endswith (s p : str) : bool := startswith (reverse s) (reverse p).

(** The slices [s[n:]] and [s[:-n]]. *)
Definition slice_from (n : nat) (s : str) : str := drop n s.
Definition slice_to_minus (n : nat) (s : str) : str :=
  take (length s - n) s.

(** A Python string is true when it is not empty. *)
Definition nonempty (s : str) : bool :=
  match s with [] => false | _ :: _ => true end.

(** [s] occurs in [t]. *)
Definition occurs_in (s t : str) : Prop :=
  exists pre post, t = pre ++ s ++ post.

End PyStr.

Import PyStr.

(** ** The topic pattern

    The pattern of [re.search] in [extract_topic_from_code] is
    [topic_name\s*=\s*Q(N+)Q], where [Q] is the class of the two quote
    characters (double and single) and [N] its complement.  Each piece
    of the pattern is followed by a character outside its own class, so
    the greedy reading of each piece is the only one. *)

Module TopicRe.

Definition is_quote (c : ascii) : bool :=
  bool_decide (c = dq) || bool_decide (c = sq).

(** A literal prefix: the rest of [s] after [p], if [s] starts with it. *)
Fixpoint literal (p s : str) {struct p} : option str :=
  match p, s with
  | [], _ => Some s
  | _ :: _, [] => None
  | a :: p', c :: s' => if bool_decide (a = c) then literal p' s' else None
  end.

(** One character of a class. *)
Definition one (p : ascii -> bool) (s : str) : option str :=
  match s with
  | c :: s' => if p c then Some s' else None
  | [] => None
  end.

(** The longest run of a class, and what follows it. *)
Fixpoint run (p : ascii -> bool) (s : str) : str * str :=
  match s with
  | c :: s' =>
      if p c then let '(r, t) := run p s' in (c :: r, t) else ([], s)
  | [] => ([], [])
  end.

(** The pattern anchored at the start of [s]; the result is group 1. *)
Definition match_here (s : str) : option str :=
  s ← literal "topic_name" s;
  s ← one (fun c => bool_decide (c = "="%char)) (lstrip_by isspace s);
  s ← one is_quote (lstrip_by isspace s);
  let '(lit, s) := run (fun c => negb (is_quote c)) s in
  if nonempty lit then _ ← one is_quote s; Some lit else None.

(** [re.search]: the match at the leftmost position that has one. *)
Fixpoint search (s : str) : option str :=
  match match_here s with
  | Some g => Some g
  | None => match s with [] => None | _ :: s' => search s' end
  end.

(** No match starts at any of the first [n] positions of [s]. *)
Fixpoint no_match_before (n : nat) (s : str) : bool :=
  match n with
  | 0 => true
  | S n' =>
      match match_here s with
      | Some _ => false
      | None => match s with [] => true | _ :: s' => no_match_before n' s' end
      end
  end.

(** What the pattern denotes: after [pre], the name, blanks, the equals
    sign, blanks, a quote, a non-empty literal free of quotes, a quote. *)
Definition assignment_at (code pre lit : str) : Prop :=
  exists ws1 ws2 q1 q2 post,
    code = pre ++ "topic_name" ++ ws1 ++ "=" ++ ws2 ++ q1 :: lit ++ q2 :: post
    /\ Forall (fun c => isspace c = true) ws1
    /\ Forall (fun c => isspace c = true) ws2
    /\ is_quote q1 = true /\ is_quote q2 = true
    /\ lit <> [] /\ Forall (fun c => is_quote c = false) lit.

End TopicRe.

(** ** The extractor *)

(** [extract_topic_from_code]: group 1 of the first match, or [None]. *)
Definition extract_topic_from_code (code : str) : option str :=
  TopicRe.search code.

(** The assignment of the specification's example, with double quotes. *)
Definition orders_assignment : str := "topic_name = " ++ dq :: "orders" ++ [dq].

(** ** Python values, exceptions and results *)

(** A value decoded by [json.loads]. *)
Inductive json : Type :=
| JNull
| JBool (b : bool)
| JInt (z : Z)
| JFloat (f : float)
| JStr (s : str)
| JList (l : list json)
| JDict (d : gmap str json).

(** Truth value of a decoded value, as [if not code] tests it. *)
Definition truthy (v : json) : bool :=
  match v with
  | JNull => false
  | JBool b => b
  | JInt z => negb (z =? 0)%Z
  | JFloat f => negb (PrimFloat.eqb f 0%float)
  | JStr s => nonempty s
  | JList l => negb (Nat.eqb (length l) 0)
  | JDict d => negb (Nat.eqb (size d) 0)
  end.

Definition type_name (v : json) : str :=
  match v with
  | JNull => "NoneType"
  | JBool _ => "bool"
  | JInt _ => "int"
  | JFloat _ => "float"
  | JStr _ => "str"
  | JList _ => "list"
  | JDict _ => "dict"
  end.

(** An exception, as far as the module observes one: an [HTTPException]
    with its status and detail, or any other exception, given by whether
    its class derives from [Exception] (what [except Exception] tests;
    [SystemExit], [KeyboardInterrupt] and [GeneratorExit] do not) and by
    what [str] of it does: return a text, or raise in turn; or, for
    [PyExcStuck], not return at all (a [__str__] written by the code
    that runs for ever). *)
Inductive pyexc : Type :=
| HTTPException (status_code : Z) (detail : str)
| PyExc (derives_Exception : bool) (str_of : str + pyexc)
| PyExcStuck (derives_Exception : bool).

Definition is_Exception (e : pyexc) : bool :=
  match e with
  | HTTPException _ _ => true
  | PyExc b _ => b
  | PyExcStuck b => b
  end.

(** Exceptions of the builtins: on an argument of the wrong type, and on
    a value out of range. *)
Definition AttributeError (msg : str) : pyexc := PyExc true (inl msg).
Definition TypeError (msg : str) : pyexc := PyExc true (inl msg).
Definition ValueError (msg : str) : pyexc := PyExc true (inl msg).

(** The result of a call: a value, an exception, or no return at all. *)
Inductive outcome (A : Type) : Type :=
| Returns (a : A)
| Raises (e : pyexc)
| Hangs.
Arguments Returns {A} a.
Arguments Raises {A} e.
Arguments Hangs {A}.

#[global] Instance outcome_ret : MRet outcome := fun A a => Returns a.
#[global] Instance outcome_bind : MBind outcome := fun A B f o =>
  match o with
  | Returns a => f a
  | Raises e => Raises e
  | Hangs => Hangs
  end.

(** [try: body  except Exception as e: handler(e)]. *)
Definition try_except {A} (body : outcome A) (handler : pyexc -> outcome A) : outcome A :=
  match body with
  | Raises e => if is_Exception e then handler e else Raises e
  | r => r
  end.

(** A value held by a local variable of executed code, as far as [str]
    tells such values apart: the builtin values, a value whose [__str__]
    returns a text or raises, and one whose [__str__] does not return. *)
Inductive pyobj : Type :=
| ObjNone
| ObjBool (b : bool)
| ObjInt (z : Z)
| ObjStr (s : str)
| ObjOther (str_of : str + pyexc)
| ObjStuck.

Definition str_of_Z (z : Z) : str := NilZero.string_of_int (Z.to_int z).

Definition lift_str (r : str + pyexc) : outcome str :=
  match r with
  | inl s => Returns s
  | inr e => Raises e
  end.

(** [str] of an integer raises a [ValueError] when the integer has more
    decimal digits than the limit of the interpreter (no limit when it
    is 0). *)
Definition exceeds_digits (limit : nat) (z : Z) : bool :=
  negb (Nat.eqb limit 0) && (10 ^ Z.of_nat limit <=? Z.abs z)%Z.

Definition int_str (limit : nat) (z : Z) : outcome str :=
  if exceeds_digits limit z then
    Raises (ValueError ("Exceeds the limit (" ++ str_of_Z (Z.of_nat limit)
                        ++ " digits) for integer string conversion; "
                        ++ "use sys.set_int_max_str_digits() to increase the limit"))
  else Returns (str_of_Z z).

(** What [exec(code, globals, local_vars)] under [redirect_stdout] and
    the reading of the buffer after it ([buffer.getvalue()]) do.  The
    code completes and the buffer gives the text written to it; the code
    completes but reading the buffer raises (the code has closed the
    stream behind [sys.stdout], or put a [getvalue] of its own on it);
    the code raises; or the code, or the reading of the buffer, does not
    return.  The executed code is taken not to reach into the module
    that runs it: it does not assign [last_topic]. *)
Inductive exec_outcome : Type :=
| Completed (stdout : str) (local_vars : gmap str pyobj)
| Unreadable (e : pyexc)
| Raised (e : pyexc)
| Diverged.

(** ** The host: what the module calls and does not define

    The process constants, the completion service, the JSON decoder, the
    interpreter behind [exec], the stream behind [print] and the text of
    an [HTTPException].  One value of [Host] stands for the behaviour of
    these during one request, so that the service and the interpreter may
    answer differently from one request to the next. *)
Class Host : Type := {
  (** [os.getenv] of KAFKA_BOOTSTRAP_SERVERS, with its default *)
  BOOTSTRAP_SERVERS : str;
  (** [openai.chat.completions.create(...).choices[0].message.content] for
      the system and the user message (the deployment and the temperature
      are constants of the call); any failure on the way (transport, no
      choice, no content to strip) is the exception raised *)
  chat_completion : str -> str -> outcome str;
  (** [json.loads]; [None] when it raises (always an [Exception]) *)
  json_loads : str -> option json;
  (** [exec] on a string, and the reading of the buffer after it *)
  py_exec : str -> exec_outcome;
  (** [sys.get_int_max_str_digits()] when the text of [result] is taken:
      0 for no limit, or else at least 640; 4300 unless it was changed *)
  int_max_str_digits : nat;
  (** [print] of these arguments on the standard output of the server:
      it returns, raises (a text the stream cannot encode, a stream that
      is closed or broken) or does not return *)
  py_print : list str -> outcome unit;
  (** [str] of an [HTTPException] with this status and detail *)
  HTTPException_str : Z -> str -> str;
}.

Section Backend.
Context {host : Host}.

(** [str(e)], also what an f-string does with [{e}]. *)
Definition exc_str (e : pyexc) : outcome str :=
  match e with
  | HTTPException status detail => Returns (HTTPException_str status detail)
  | PyExc _ r => lift_str r
  | PyExcStuck _ => Hangs
  end.

(** [str(v)]. *)
Definition py_str (v : pyobj) : outcome str :=
  match v with
  | ObjNone => Returns ("None" : str)
  | ObjBool true => Returns ("True" : str)
  | ObjBool false => Returns ("False" : str)
  | ObjInt z => int_str int_max_str_digits z
  | ObjStr s => Returns s
  | ObjOther r => lift_str r
  | ObjStuck => Hangs
  end.

(** *** ask_openai_for_code *)

(** [{remembered_topic}] inside the f-string. *)
Definition format_topic (remembered_topic : option str) : str :=
  default ("None" : str) remembered_topic.

Definition join_lines (lines : list str) : str :=
  match lines with
  | [] => []
  | l :: ls => l ++ concat (map (cons nl) ls)
  end.

Definition system_prompt (remembered_topic : option str) : str :=
  join_lines ([
    ("" : str);
    ("    You are a Kafka assistant agent." : str);
    ("    The user will ask questions about Kafka topics, configs, producing and consuming messages." : str);
    ("" : str);
    ("    Rules:" : str);
    ("    - Respond ONLY with valid JSON object containing exactly two keys: " ++ dq :: "code" ++ dq :: " and " ++ dq :: "explanation" ++ dq :: "." : str);
    ("    - Example response:" : str);
    ("      {" ++ dq :: "code" ++ dq :: ": " ++ dq :: "from confluent_kafka.admin import AdminClient..." ++ dq :: ", " ++ dq :: "explanation" ++ dq :: ": " ++ dq :: "Your topic test-topic has retention 7 days" ++ dq :: "}" : str);
    ("    - " ++ dq :: "code" ++ dq :: " must be valid Python using confluent_kafka." : str);
    ("    - " ++ dq :: "explanation" ++ dq :: " must be a conversational English answer." : str);
    ("    - Assume bootstrap servers='" ++ BOOTSTRAP_SERVERS ++ "'." : str);
    ("    - If the user does not mention a topic but we have a remembered topic (" ++ format_topic remembered_topic ++ "), reuse that." : str);
    ("    - If no remembered topic exists, politely ask the user to provide a topic name." : str);
    ("    - To fetch topic configs (like retention.ms), ALWAYS use:" : str);
    ("        from confluent_kafka.admin import AdminClient, ConfigResource" : str);
    ("        admin = AdminClient({" ++ dq :: "bootstrap.servers" ++ dq :: ": " ++ dq :: BOOTSTRAP_SERVERS ++ dq :: "})" : str);
    ("        cr = ConfigResource(" ++ dq :: "topic" ++ dq :: ", topic_name)" : str);
    ("        futures = admin.describe_configs([cr])" : str);
    ("        for res, fut in futures.items():" : str);
    ("            cfg = fut.result()" : str);
    ("            entry = cfg.get(" ++ dq :: "retention.ms" ++ dq :: ")" : str);
    ("            if entry and entry.value:" : str);
    ("                retention_ms = int(entry.value)" : str);
    ("                days = retention_ms / (1000*60*60*24)" : str);
    ("                hours = retention_ms / (1000*60*60)" : str);
    ("                print(f" ++ dq :: "Retention for {topic_name}: {days:.2f} days ({hours:.2f} hours)" ++ dq :: ")" : str);
    ("            else:" : str);
    ("                print(f" ++ dq :: "Retention not explicitly set for {topic_name}" ++ dq :: ")" : str);
    ("    " : str)
  ]).

(** The handling of fenced completions, on the stripped text. *)
Definition strip_fences (raw : str) : str :=
  if startswith raw "```" then
    let raw := strip_chars "`" raw in
    let raw := if startswith (lower raw) "json" then strip (slice_from 4 raw) else raw in
    let raw := if endswith raw "```" then strip (slice_to_minus 3 raw) else raw in
    raw
  else raw.

(** From the content of the completion on: strip, unwrap, decode. *)
Definition decode_completion (content : str) : outcome json :=
  let raw := strip_fences (strip content) in
  match json_loads raw with
  | Some v => Returns v
  | None => Raises (HTTPException 500 ("AI response was not valid JSON: " ++ raw))
  end.

(** The debug line is printed between the strip and the handling of the
    fences; [decode_completion] is the rest of the function. *)
Definition ask_openai_for_code (prompt : str) (remembered_topic : option str) : outcome json :=
  content ← chat_completion (system_prompt remembered_topic) prompt;
  _ ← py_print [("AI RAW RESPONSE:" : str); strip content];
  decode_completion content.

(** *** run_code_safely *)

Definition run_code_safely (code : str) : outcome str :=
  try_except
    (match py_exec code with
     | Completed stdout local_vars =>
         let captured := strip stdout in
         if nonempty captured then Returns captured
         else py_str (default (ObjStr "<no result>") (local_vars !! ("result" : str)))
     | Unreadable e => Raises e
     | Raised e => Raises e
     | Diverged => Hangs
     end)
    (fun e => msg ← exc_str e; Returns ("Error while executing AI code: " ++ msg)).

(** The exception [e] is raised inside the [try] of [run_code_safely]:
    by the code, by the reading of the buffer, or by [str] of [result]
    (reached when the output is blank). *)
Definition raised_by_body (code : str) (e : pyexc) : Prop :=
  py_exec code = Raised e
  \/ py_exec code = Unreadable e
  \/ exists stdout local_vars v,
       py_exec code = Completed stdout local_vars
       /\ strip stdout = []
       /\ local_vars !! ("result" : str) = Some v
       /\ py_str v = Raises e.

End Backend.

(** ** The request handler and the topic memory *)

Record PromptRequest : Type := { prompt : str }.

(** The dictionary [kafka_agent] returns. *)
Module Response.
Record t : Type := {
  prompt : str;
  topic_in_use : option str;
  explanation : json;
  executed_code : json;
  result : str;
}.
End Response.

(** A handler is a program over the one shared slot, [last_topic]: it
    ends with a result, reads the slot, or overwrites it.  Everything
    else a request does is local to it: the calls of the host, the two
    log lines ([print]) among them, end a handler when they raise or do
    not return. *)
Inductive prog (A : Type) : Type :=
| Ret (r : outcome A)
| ReadTopic (k : option str -> prog A)
| WriteTopic (t : str) (k : prog A).
Arguments Ret {A} r.
Arguments ReadTopic {A} k.
Arguments WriteTopic {A} t k.

Fixpoint prog_bind {A B} (f : A -> prog B) (p : prog A) : prog B :=
  match p with
  | Ret (Returns a) => f a
  | Ret (Raises e) => Ret (Raises e)
  | Ret Hangs => Ret Hangs
  | ReadTopic k => ReadTopic (fun v => prog_bind f (k v))
  | WriteTopic t k => WriteTopic t (prog_bind f k)
  end.

#[global] Instance prog_mret : MRet prog := fun A a => Ret (Returns a).
#[global] Instance prog_mbind : MBind prog := fun A B f p => prog_bind f p.

(** A call that does not touch the slot. *)
Definition call {A} (o : outcome A) : prog A := Ret o.
Definition raise {A} (e : pyexc) : prog A := Ret (Raises e).
Definition read_last_topic : prog (option str) := ReadTopic (fun v => Ret (Returns v)).
Definition write_last_topic (t : str) : prog unit := WriteTopic t (Ret (Returns tt)).

(** [try: body  except Exception as e: handler(e)] around a program. *)
Fixpoint try_except_prog {A} (body : prog A) (handler : pyexc -> prog A) : prog A :=
  match body with
  | Ret (Raises e) => if is_Exception e then handler e else Ret (Raises e)
  | Ret r => Ret r
  | ReadTopic k => ReadTopic (fun v => try_except_prog (k v) handler)
  | WriteTopic t k => WriteTopic t (try_except_prog k handler)
  end.

Section Handler.
Context {host : Host}.

(** [ai_output.get(key, default)]: only a dictionary has [get]. *)
Definition dict_get (ai_output : json) (key : str) (fallback : json) : outcome json :=
  match ai_output with
  | JDict d => Returns (default fallback (d !! key))
  | v => Raises (AttributeError ("'" ++ type_name v ++ "' object has no attribute 'get'"))
  end.

(** [run_code_safely(code)] on whatever [code] is: [exec] raises a
    [TypeError] inside the [try] when it is not a string. *)
Definition run_code_safely_any (code : json) : outcome str :=
  match code with
  | JStr s => run_code_safely s
  | _ => Returns ("Error while executing AI code: "
                  ++ "exec() arg 1 must be a string, bytes or code object")
  end.

(** [extract_topic_from_code(code)] on whatever [code] is: [re.search]
    raises a [TypeError] when it is not a string. *)
Definition extract_topic_from_code_any (code : json) : outcome (option str) :=
  match code with
  | JStr s => Returns (extract_topic_from_code s)
  | v => Raises (TypeError ("expected string or bytes-like object, got '"
                            ++ type_name v ++ "'"))
  end.

(** The body of the [try] of [kafka_agent], from the decoded completion on. *)
Definition respond (req : PromptRequest) (ai_output : json) : prog Response.t :=
  code ← call (dict_get ai_output "code" JNull);
  explanation ← call (dict_get ai_output "explanation" (JStr ""));
  if negb (truthy code) then
    raise (HTTPException 500 "AI did not return code")
  else
    result ← call (run_code_safely_any code);
    extracted ← call (extract_topic_from_code_any code);
    _ ← match extracted with
        | Some topic =>
            if nonempty topic then
              _ ← write_last_topic topic;
              (* the log line reads the slot again *)
              logged ← read_last_topic;
              call (py_print [("Remembering topic: " : str) ++ format_topic logged])
            else mret tt
        | None => mret tt
        end;
    last_topic ← read_last_topic;
    mret {| Response.prompt := prompt req;
            Response.topic_in_use := last_topic;
            Response.explanation := explanation;
            Response.executed_code := code;
            Response.result := result |}.

(** [except Exception as e: raise HTTPException(500, detail=str(e))]. *)
Definition report (e : pyexc) : prog Response.t :=
  detail ← call (exc_str e); raise (HTTPException 500 detail).

(** What is left of a handler that has written the topic and read the
    slot for its log line, by what the [print] of that line did: the
    read for the reply, or the end of the handler. *)
Definition after_log (req : PromptRequest) (code : str) (explanation : json)
    (result : str) (logged : outcome unit) : prog Response.t :=
  match logged with
  | Returns _ =>
      ReadTopic (fun last_topic =>
        Ret (Returns {| Response.prompt := prompt req;
                        Response.topic_in_use := last_topic;
                        Response.explanation := explanation;
                        Response.executed_code := JStr code;
                        Response.result := result |}))
  | Raises e => if is_Exception e then report e else Ret (Raises e)
  | Hangs => Ret Hangs
  end.

(** The three forms a handler has once it has read the slot and the
    completion is decoded and run: it has failed; it reads the slot for
    its reply; or it overwrites the slot with the extracted topic, reads
    it for the log line, prints the line and, when that returns, reads
    the slot again for its reply. *)
Inductive handler_form (req : PromptRequest) : prog Response.t -> Prop :=
| form_failed (r : outcome Response.t) :
    (forall p, r <> Returns p) ->
    handler_form req (Ret r)
| form_keep (code : str) (explanation : json) (result : str) :
    nonempty code = true ->
    extract_topic_from_code code = None ->
    handler_form req
      (ReadTopic (fun last_topic =>
         Ret (Returns {| Response.prompt := prompt req;
                         Response.topic_in_use := last_topic;
                         Response.explanation := explanation;
                         Response.executed_code := JStr code;
                         Response.result := result |})))
| form_remember (code : str) (explanation : json) (result : str) (topic : str)
    (k : option str -> prog Response.t) :
    nonempty code = true ->
    extract_topic_from_code code = Some topic ->
    (forall logged,
        k logged
        = after_log req code explanation result
            (py_print [("Remembering topic: " : str) ++ format_topic logged])) ->
    handler_form req (WriteTopic topic (ReadTopic k)).

Definition kafka_agent (req : PromptRequest) : prog Response.t :=
  try_except_prog
    (remembered_topic ← read_last_topic;
     ai_output ← call (ask_openai_for_code (prompt req) remembered_topic);
     respond req ai_output)
    report.

(** The handler once it has read the slot. *)
Definition kafka_agent_from (req : PromptRequest) (remembered_topic : option str)
  : prog Response.t :=
  try_except_prog
    (ai_output ← call (ask_openai_for_code (prompt req) remembered_topic);
     respond req ai_output)
    report.

(** The topic a reply reports, and the slot after it, when the handler
    runs alone: the topic found in the code, or else the remembered one. *)
Definition topic_after (m : option str) (code : str) : option str :=
  match extract_topic_from_code code with
  | Some topic => Some topic
  | None => m
  end.

End Handler.

(** ** Running handlers *)

(** What a handler does to the slot. *)
Inductive event : Type :=
| EvRead (v : option str)
| EvWrite (t : str).

(** One handler alone, to its end: the result, the slot afterwards and
    the accesses in order. *)
Fixpoint run_prog {A} (p : prog A) (m : option str) : outcome A * option str * list event :=
  match p with
  | Ret r => (r, m, [])
  | ReadTopic k => let '(r, m', tr) := run_prog (k m) m in (r, m', EvRead m :: tr)
  | WriteTopic t k => let '(r, m', tr) := run_prog k (Some t) in (r, m', EvWrite t :: tr)
  end.

(** Requests handled one at a time, each in its own host. *)
Fixpoint serve (m : option str) (reqs : list (Host * PromptRequest))
  : list (outcome Response.t * list event) * option str :=
  match reqs with
  | [] => ([], m)
  | (h, req) :: reqs' =>
      let '(r, m1, tr) := run_prog (@kafka_agent h req) m in
      let '(rs, m') := serve m1 reqs' in
      ((r, tr) :: rs, m')
  end.

(** Handlers in flight together.  A step performs the next access of one
    handler; a schedule names the handler that moves at each step (a
    finished handler, or a name out of range, does not move). *)
Definition thread_step {A} (m : option str) (p : prog A) : option (event * option str * prog A) :=
  match p with
  | Ret _ => None
  | ReadTopic k => Some (EvRead m, m, k m)
  | WriteTopic t k => Some (EvWrite t, Some t, k)
  end.

Fixpoint run_schedule {A} (sched : list nat) (m : option str) (ts : list (prog A))
  : option str * list (prog A) * list (nat * event) :=
  match sched with
  | [] => (m, ts, [])
  | i :: sched' =>
      match ts !! i ≫= thread_step m with
      | Some (ev, m1, p') =>
          let '(m', ts', tr) := run_schedule sched' m1 (<[i:=p']> ts) in
          (m', ts', (i, ev) :: tr)
      | None => run_schedule sched' m ts
      end
  end.

(** The accesses of handler [i] in a trace. *)
Definition events_of (i : nat) (tr : list (nat * event)) : list event :=
  omap (fun '(j, ev) => if bool_decide (j = i) then Some ev else None) tr.

(** [thread_trace p evs p']: the accesses [evs], in order, take the
    handler [p] to [p']. *)
Inductive thread_trace {A} : prog A -> list event -> prog A -> Prop :=
| trace_done p : thread_trace p [] p
| trace_read k v evs p' :
    thread_trace (k v) evs p' -> thread_trace (ReadTopic k) (EvRead v :: evs) p'
| trace_write t k evs p' :
    thread_trace k evs p' -> thread_trace (WriteTopic t k) (EvWrite t :: evs) p'.

(** The writes of a trace, and the slot after them. *)
Definition writes (tr : list (nat * event)) : list (nat * str) :=
  omap (fun '(i, ev) => match ev with EvWrite t => Some (i, t) | EvRead _ => None end) tr.

(** What handler [i] wrote, among the writes [w]. *)
Definition written_by (i : nat) (w : list (nat * str)) : list str :=
  omap (fun '(j, t) => if bool_decide (j = i) then Some t else None) w.

Definition last_write (m : option str) (tr : list (nat * event)) : option str :=
  match last (writes tr) with
  | Some (_, t) => Some t
  | None => m
  end.

(** ** What the properties assume of [json.loads]

    [json.loads] skips JSON whitespace (space, tab, line feed, carriage
    return) around the document, and a document starts and ends with a
    character of a JSON value: none of them is blank (in the sense of
    [str.isspace]) or a backtick. *)

Definition json_ws (c : ascii) : bool :=
  bool_decide (c = " "%char) || bool_decide (c = "009"%char)
  || bool_decide (c = "010"%char) || bool_decide (c = "013"%char).

Definition solid (c : ascii) : bool :=
  negb (isspace c) && negb (bool_decide (c = "`"%char)).

Definition json_text (core : str) : Prop :=
  (exists a, head core = Some a /\ solid a = true)
  /\ (exists z, last core = Some z /\ solid z = true).

Record decoder_laws (loads : str -> option json) : Prop := {
  loads_ws : forall l s r,
    Forall (fun c => json_ws c = true) l -> Forall (fun c => json_ws c = true) r ->
    loads (l ++ s ++ r) = loads s;
  loads_shape : forall s v,
    loads s = Some v ->
    exists l core r,
      s = l ++ core ++ r
      /\ Forall (fun c => json_ws c = true) l /\ Forall (fun c => json_ws c = true) r
      /\ json_text core;
}.

(** A completion in a fenced block: [tag] is empty or a spelling of
    [json], and the fence lines end with a line feed. *)
Definition fenced (tag : str) (T : str) : str :=
  "```" ++ tag ++ nl :: T ++ nl :: "```".

(** A fenced block with any texts [ws1] and [ws2] between the fences
    and the content. *)
Definition fenced_with (tag ws1 T ws2 : str) : str :=
  "```" ++ tag ++ ws1 ++ T ++ ws2 ++ "```".

(** ** A sample host

    The behaviour of the collaborators on a handful of inputs, for the
    examples below: a completion service that answers a given text, a
    decoder that knows a few documents (up to the JSON whitespace around
    them), and the interpreter's outcome on a few snippets. *)

Module Sample.

(** The text of a JSON object with the string members [code] and
    [explanation] (for texts that need no escape). *)
Definition completion_text (code explanation : str) : str :=
  "{" ++ dq :: "code" ++ dq :: ": " ++ dq :: code ++ dq :: ", "
  ++ dq :: "explanation" ++ dq :: ": " ++ dq :: explanation ++ dq :: "}".

Definition completion_value (code explanation : str) : json :=
  JDict (<[("code" : str) := JStr code]> {[("explanation" : str) := JStr explanation]}).

(** An object with no [code] member. *)
Definition no_code_text : str :=
  "{" ++ dq :: "explanation" ++ dq :: ": " ++ dq :: "Which topic do you mean?" ++ dq :: "}".
Definition no_code_value : json :=
  JDict {[("explanation" : str) := JStr "Which topic do you mean?"]}.

(** An object whose [code] is a number. *)
Definition int_code_text : str := "{" ++ dq :: "code" ++ dq :: ": 5}".
Definition int_code_value : json := JDict {[("code" : str) := JInt 5]}.

Definition snippets : list str :=
  [ ("topic_name = 'a'" : str);
    ("topic_name = 'b'" : str);
    ("print(42); result = 7" : str);
    ("print(); result = 7" : str);
    ("result = 7" : str);
    ("pass" : str);
    ("topic_name = 'a'; 1/0" : str);
    ("raise SystemExit" : str);
    ("while True: pass" : str) ].

(** An object whose [code] names a topic with a letter beyond ASCII (e
    with an acute accent, code point 233), written in the text with its
    JSON escape: the text itself is ASCII. *)
Definition accent_topic : str := "caf" ++ ["233"%char].
Definition accent_code : str := "topic_name = '" ++ accent_topic ++ "'".
Definition accent_text : str :=
  "{" ++ dq :: "code" ++ dq :: ": " ++ dq :: "topic_name = 'caf\u00e9'" ++ dq :: ", "
  ++ dq :: "explanation" ++ dq :: ": " ++ dq :: "ok" ++ dq :: "}".

Definition documents : list (str * json) :=
  map (fun c => (completion_text c "ok", completion_value c "ok")) snippets
  ++ [ (no_code_text, no_code_value); (int_code_text, int_code_value);
       (accent_text, completion_value accent_code "ok") ].

Fixpoint lookup_document (s : str) (docs : list (str * json)) : option json :=
  match docs with
  | [] => None
  | (t, v) :: docs' => if bool_decide (s = t) then Some v else lookup_document s docs'
  end.

Definition loads (s : str) : option json :=
  lookup_document (strip_by json_ws s) documents.

(** CPython on the snippets; any other text is taken for a syntax error. *)
Definition exec (code : str) : exec_outcome :=
  if bool_decide (code = ("topic_name = 'a'" : str)) then
    Completed [] {[("topic_name" : str) := ObjStr "a"]}
  else if bool_decide (code = ("topic_name = 'b'" : str)) then
    Completed [] {[("topic_name" : str) := ObjStr "b"]}
  else if bool_decide (code = ("print(42); result = 7" : str)) then
    Completed ("42" ++ [nl]) {[("result" : str) := ObjInt 7]}
  else if bool_decide (code = ("print(); result = 7" : str)) then
    Completed [nl] {[("result" : str) := ObjInt 7]}
  else if bool_decide (code = ("result = 7" : str)) then
    Completed [] {[("result" : str) := ObjInt 7]}
  else if bool_decide (code = ("pass" : str)) then
    Completed [] ∅
  else if bool_decide (code = ("topic_name = 'a'; 1/0" : str)) then
    Raised (PyExc true (inl ("division by zero" : str)))
  else if bool_decide (code = ("raise SystemExit" : str)) then
    Raised (PyExc false (inl []))
  else if bool_decide (code = ("while True: pass" : str)) then
    Diverged
  else if bool_decide (code = accent_code) then
    Completed [] {[("topic_name" : str) := ObjStr accent_topic]}
  else if bool_decide (code = ("import sys; sys.stdout.close(); result = 7" : str)) then
    Unreadable (ValueError "I/O operation on closed file")
  else if bool_decide (code = ("result = 10**4300" : str)) then
    Completed [] {[("result" : str) := ObjInt (10 ^ 4300)]}
  else Raised (PyExc true (inl ("invalid syntax" : str))).

(** The host of a request to which the service answers [content];
    [str] of an [HTTPException] is Starlette's, status and detail. *)
Definition host (content : str) : Host := {|
  BOOTSTRAP_SERVERS := "localhost:9092";
  chat_completion := fun _ _ => Returns content;
  json_loads := loads;
  py_exec := exec;
  int_max_str_digits := 4300;
  py_print := fun _ => Returns tt;
  HTTPException_str := fun status detail => str_of_Z status ++ ": " ++ detail;
|}.

(** Two requests about two topics, each with the host that answers it,
    and the reply to such a request. *)
Definition request_a : Host * PromptRequest :=
  (host (completion_text "topic_name = 'a'" "ok"), {| prompt := "retention of a" |}).
Definition request_b : Host * PromptRequest :=
  (host (completion_text "topic_name = 'b'" "ok"), {| prompt := "retention of b" |}).
Definition reply (req : Host * PromptRequest) (code : str) (topic : str) : Response.t :=
  {| Response.prompt := prompt req.2;
     Response.topic_in_use := Some topic;
     Response.explanation := JStr "ok";
     Response.executed_code := JStr code;
     Response.result := "<no result>" |}.

(** [print] on a standard output that encodes to ASCII with strict
    errors: each argument is written in turn, and the first one with a
    character beyond ASCII raises the [UnicodeEncodeError] of the codec,
    which names the first run of such characters in it. *)
Definition is_ascii (c : ascii) : bool := (N_of_ascii c <? 128)%N.

Definition hex_digit (n : N) : ascii :=
  default "0"%char (("0123456789abcdef" : str) !! N.to_nat n).

Definition ascii_codec_error (s : str) : option str :=
  match lstrip_by is_ascii s with
  | [] => None
  | c :: rest =>
      let pos := (length s - S (length rest))%nat in
      let run := (S (length rest)
                  - length (lstrip_by (fun c => negb (is_ascii c)) rest))%nat in
      Some ("'ascii' codec can't encode "
            ++ (if Nat.eqb run 1
                then "character '\x"
                     ++ [hex_digit (N_of_ascii c / 16); hex_digit (N_of_ascii c mod 16)]
                     ++ "' in position " ++ str_of_Z (Z.of_nat pos)
                else "characters in position " ++ str_of_Z (Z.of_nat pos)
                     ++ "-" ++ str_of_Z (Z.of_nat (pos + run - 1)))
            ++ ": ordinal not in range(128)")
  end.

Fixpoint print_ascii (args : list str) : outcome unit :=
  match args with
  | [] => Returns tt
  | a :: args' =>
      match ascii_codec_error a with
      | Some msg => Raises (PyExc true (inl msg))
      | None => print_ascii args'
      end
  end.

(** The host of [host], with such a standard output. *)
Definition host_ascii (content : str) : Host := {|
  BOOTSTRAP_SERVERS := "localhost:9092";
  chat_completion := fun _ _ => Returns content;
  json_loads := loads;
  py_exec := exec;
  int_max_str_digits := 4300;
  py_print := print_ascii;
  HTTPException_str := fun status detail => str_of_Z status ++ ": " ++ detail;
|}.

(** A host whose completion service fails with [e]. *)
Definition host_down (e : pyexc) : Host := {|
  BOOTSTRAP_SERVERS := "localhost:9092";
  chat_completion := fun _ _ => Raises e;
  json_loads := loads;
  py_exec := exec;
  int_max_str_digits := 4300;
  py_print := fun _ => Returns tt;
  HTTPException_str := fun status detail => str_of_Z status ++ ": " ++ detail;
|}.

(** A host whose service answers with a JSON list. *)
Definition list_text : str := "[1]".
Definition host_of_list : Host := {|
  BOOTSTRAP_SERVERS := "localhost:9092";
  chat_completion := fun _ _ => Returns list_text;
  json_loads := fun s => if bool_decide (strip_by json_ws s = list_text)
                         then Some (JList [JInt 1]) else loads s;
  py_exec := exec;
  int_max_str_digits := 4300;
  py_print := fun _ => Returns tt;
  HTTPException_str := fun status detail => str_of_Z status ++ ": " ++ detail;
|}.

End Sample.

(* ================================================================== *)
(** * Properties *)

(** ** Facts about the string builtins *)

Module PyStrFacts.

Lemma lstrip_by_app p ws s :
  Forall (fun c => p c = true) ws -> lstrip_by p (ws ++ s) = lstrip_by p s.
Proof.
  induction 1 as [|c ws Hc _ IH]; simpl; [done|]. by rewrite Hc.
Qed.

Lemma lstrip_by_stop p c s : p c = false -> lstrip_by p (c :: s) = c :: s.
Proof. intros H. simpl. by rewrite H. Qed.

Lemma lstrip_by_split p s :
  exists ws, s = ws ++ lstrip_by p s /\ Forall (fun c => p c = true) ws.
Proof.
  induction s as [|c s [ws [E F]]]; simpl.
  - by exists [].
  - destruct (p c) eqn:Hc.
    + exists (c :: ws). split; [simpl; by f_equal | by constructor].
    + by exists [].
Qed.

Lemma lstrip_by_head p s c t : lstrip_by p s = c :: t -> p c = false.
Proof.
  induction s as [|a s IH]; simpl; [done|].
  destruct (p a) eqn:Ha; [done|]. by intros [= <- _].
Qed.

Lemma lstrip_by_nil p s :
  lstrip_by p s = [] <-> Forall (fun c => p c = true) s.
Proof.
  induction s as [|c s IH]; simpl; [done|].
  destruct (p c) eqn:Hc.
  - rewrite IH. split; [by constructor | by inversion 1].
  - split; [done | inversion 1; congruence].
Qed.

(** What is left of a text that is not only made of the class starts
    the same way with more text after it. *)
Lemma lstrip_by_app_l p s r :
  lstrip_by p s <> [] -> lstrip_by p (s ++ r) = lstrip_by p s ++ r.
Proof.
  induction s as [|c s IH]; simpl; [done|].
  destruct (p c); [exact IH | done].
Qed.

Lemma rstrip_by_nil p s :
  rstrip_by p s = [] <-> Forall (fun c => p c = true) s.
Proof.
  unfold rstrip_by. rewrite <- (Forall_reverse _ s), <- lstrip_by_nil.
  split; [|by intros ->].
  intros H. apply (f_equal reverse) in H. by rewrite reverse_involutive in H.
Qed.

Lemma rstrip_by_app p s ws :
  Forall (fun c => p c = true) ws -> rstrip_by p (s ++ ws) = rstrip_by p s.
Proof.
  intros H. unfold rstrip_by. rewrite reverse_app, lstrip_by_app; [done|].
  by apply Forall_reverse.
Qed.

Lemma rstrip_by_stop p s c :
  p c = false -> rstrip_by p (s ++ [c]) = s ++ [c].
Proof.
  intros H. unfold rstrip_by. rewrite reverse_snoc. simpl. rewrite H.
  by rewrite reverse_cons, reverse_involutive.
Qed.

Lemma lstrip_by_snoc p s c :
  p c = false -> lstrip_by p (s ++ [c]) = lstrip_by p s ++ [c].
Proof.
  intros H. induction s as [|a s IH]; simpl; [by rewrite H|].
  by destruct (p a).
Qed.

(** The two ends are stripped independently. *)
Lemma lstrip_by_rstrip_by p s :
  lstrip_by p (rstrip_by p s) = rstrip_by p (lstrip_by p s).
Proof.
  induction s as [|c s IH] using rev_ind; [done|].
  destruct (p c) eqn:Hc.
  - rewrite rstrip_by_app by (by repeat constructor). rewrite IH.
    destruct (decide (lstrip_by p s = [])) as [E|E].
    + rewrite lstrip_by_app by by apply lstrip_by_nil. simpl. by rewrite Hc, E.
    + rewrite lstrip_by_app_l by done.
      by rewrite rstrip_by_app by (by repeat constructor).
  - rewrite rstrip_by_stop, lstrip_by_snoc by done.
    by rewrite rstrip_by_stop.
Qed.

(** Stripping is blind to the class on either side. *)
Lemma strip_by_app p l s r :
  Forall (fun c => p c = true) l -> Forall (fun c => p c = true) r ->
  strip_by p (l ++ s ++ r) = strip_by p s.
Proof.
  intros Hl Hr. unfold strip_by.
  rewrite <- !lstrip_by_rstrip_by. rewrite app_assoc, rstrip_by_app by done.
  rewrite !lstrip_by_rstrip_by, lstrip_by_app by done. done.
Qed.

Lemma strip_by_nil p s : strip_by p s = [] <-> Forall (fun c => p c = true) s.
Proof.
  unfold strip_by. rewrite rstrip_by_nil. split.
  - intros H. destruct (lstrip_by_split p s) as (ws & E & F).
    rewrite E. by apply Forall_app.
  - intros H. apply lstrip_by_nil in H. rewrite H. constructor.
Qed.

(** A text that neither starts nor ends in the class is left as it is. *)
Lemma strip_by_solid p s a z :
  head s = Some a -> last s = Some z -> p a = false -> p z = false ->
  strip_by p s = s.
Proof.
  intros Ha Hz Pa Pz. unfold strip_by.
  destruct s as [|c s]; [done|]. injection Ha as ->.
  rewrite lstrip_by_stop by done.
  destruct (last_Some (a :: s) z) as [[s' E] _]; [done|]. rewrite E.
  by apply rstrip_by_stop.
Qed.

End PyStrFacts.

(** ** The pattern matcher computes what the pattern denotes *)

Module TopicReFacts.
Import TopicRe PyStrFacts.

Lemma literal_Some p s r : literal p s = Some r <-> s = p ++ r.
Proof.
  revert s. induction p as [|a p IH]; intros s; simpl.
  - split; congruence.
  - destruct s as [|c s]; [split; discriminate|].
    case_bool_decide as E.
    + subst c. rewrite IH. split; congruence.
    + split; [discriminate | congruence].
Qed.

Lemma one_Some p s r : one p s = Some r <-> exists c, s = c :: r /\ p c = true.
Proof.
  destruct s as [|c s]; simpl.
  - split; [discriminate | by intros (? & ? & _)].
  - destruct (p c) eqn:Hc; split.
    + intros [= <-]. by exists c.
    + by intros (c' & [= <- <-] & _).
    + discriminate.
    + intros (c' & [= <- <-] & H). congruence.
Qed.

Lemma run_app p r c t :
  Forall (fun a => p a = true) r -> p c = false -> run p (r ++ c :: t) = (r, c :: t).
Proof.
  intros Hr Hc. induction Hr as [|a r Ha _ IH]; simpl.
  - by rewrite Hc.
  - by rewrite Ha, IH.
Qed.

Lemma run_split p s r t :
  run p s = (r, t) -> s = r ++ t /\ Forall (fun a => p a = true) r.
Proof.
  revert r t. induction s as [|a s IH]; intros r t; simpl.
  - by intros [= <- <-].
  - destruct (p a) eqn:Ha.
    + destruct (run p s) as [r' t'] eqn:E. intros [= <- <-].
      destruct (IH _ _ eq_refl) as [-> F]. split; [done | by constructor].
    + by intros [= <- <-].
Qed.

Lemma quote_not_space c : is_quote c = true -> isspace c = false.
Proof.
  unfold is_quote. intros H. apply orb_true_iff in H as [H|H];
    apply bool_decide_eq_true in H; by subst c.
Qed.

(** Anchored at a position, the matcher succeeds exactly on the texts
    the pattern denotes there, with the same group. *)
Lemma match_here_iff s lit : match_here s = Some lit <-> assignment_at s [] lit.
Proof.
  unfold match_here, assignment_at. split.
  - intros H.
    destruct (literal "topic_name" s) as [s1|] eqn:E1; [|done].
    apply literal_Some in E1. simpl in H.
    destruct (one _ (lstrip_by isspace s1)) as [s2|] eqn:E2; [|done].
    apply one_Some in E2 as (c2 & E2 & Hc2). apply bool_decide_eq_true in Hc2. subst c2.
    simpl in H.
    destruct (one is_quote (lstrip_by isspace s2)) as [s3|] eqn:E3; [|done].
    apply one_Some in E3 as (q1 & E3 & Hq1). simpl in H.
    destruct (run _ s3) as [l s4] eqn:E4.
    apply run_split in E4 as [E4 Hl].
    destruct (nonempty l) eqn:Hne; [|done].
    destruct (one is_quote s4) as [s5|] eqn:E5; [|done].
    apply one_Some in E5 as (q2 & E5 & Hq2). simpl in H. injection H as <-.
    destruct (lstrip_by_split isspace s1) as (ws1 & S1 & F1).
    destruct (lstrip_by_split isspace s2) as (ws2 & S2 & F2).
    exists ws1, ws2, q1, q2, s5. split_and!; try done.
    + rewrite E1, S1, E2, S2, E3, E4, E5. done.
    + by destruct l.
    + eapply Forall_impl; [exact Hl|]. intros a Ha. simpl in Ha. by destruct (is_quote a).
  - intros (ws1 & ws2 & q1 & q2 & post & -> & F1 & F2 & Hq1 & Hq2 & Hne & Fl).
    replace (literal "topic_name" _) with (Some (ws1 ++ "=" ++ ws2 ++ q1 :: lit ++ q2 :: post))
      by (symmetry; by apply literal_Some).
    simpl. rewrite lstrip_by_app by done. simpl.
    rewrite lstrip_by_app by done. rewrite lstrip_by_stop by by apply quote_not_space.
    simpl. rewrite Hq1. simpl.
    rewrite run_app; [| |by rewrite Hq2].
    + destruct lit; [done|]. simpl. by rewrite Hq2.
    + eapply Forall_impl; [exact Fl|]. intros a Ha. simpl. by rewrite Ha.
Qed.

Lemma assignment_at_shift pre s lit :
  assignment_at (pre ++ s) pre lit <-> assignment_at s [] lit.
Proof.
  unfold assignment_at. split.
  - intros (ws1 & ws2 & q1 & q2 & post & E & H). apply app_inv_head in E.
    by exists ws1, ws2, q1, q2, post.
  - intros (ws1 & ws2 & q1 & q2 & post & E & H). simpl in E.
    exists ws1, ws2, q1, q2, post. by rewrite E.
Qed.

Lemma assignment_at_prefix code pre lit :
  assignment_at code pre lit -> exists s, code = pre ++ s.
Proof. intros (ws1 & ws2 & q1 & q2 & post & E & _). eauto. Qed.

(** At one position the pattern has one reading. *)
Lemma assignment_at_unique code pre lit lit' :
  assignment_at code pre lit -> assignment_at code pre lit' -> lit = lit'.
Proof.
  intros H H'. destruct (assignment_at_prefix _ _ _ H) as [s ->].
  apply assignment_at_shift, match_here_iff in H.
  apply assignment_at_shift, match_here_iff in H'. congruence.
Qed.

Lemma search_None s : search s = None <-> forall pre lit, ~ assignment_at s pre lit.
Proof.
  induction s as [|c s IH].
  - simpl. split; [|done]. intros _ pre lit H.
    destruct (assignment_at_prefix _ _ _ H) as [s E].
    symmetry in E. apply app_eq_nil in E as [-> ->].
    by apply match_here_iff in H.
  - cbn [search]. destruct (match_here (c :: s)) as [g|] eqn:M.
    + split; [done|]. intros H. apply match_here_iff in M. by destruct (H [] g).
    + rewrite IH. split.
      * intros H pre lit A. destruct (assignment_at_prefix _ _ _ A) as [t E].
        destruct pre as [|a pre].
        -- apply match_here_iff in A. congruence.
        -- injection E as <- ->. apply (assignment_at_shift (c :: pre) t) in A.
           by apply (H pre lit), assignment_at_shift.
      * intros H pre lit A. destruct (assignment_at_prefix _ _ _ A) as [t ->].
        apply assignment_at_shift in A.
        by apply (H (c :: pre) lit), (assignment_at_shift (c :: pre)).
Qed.

(** A result of [search] is the group of the leftmost match. *)
Lemma search_Some s lit :
  search s = Some lit ->
  exists pre, assignment_at s pre lit
    /\ forall pre' lit', assignment_at s pre' lit' -> length pre <= length pre'.
Proof.
  induction s as [|c s IH]; cbn [search].
  - destruct (match_here []) eqn:M; [|done]. intros [= ->].
    exists []. split; [by apply match_here_iff | simpl; lia].
  - destruct (match_here (c :: s)) as [g|] eqn:M.
    + intros [= ->]. exists []. split; [by apply match_here_iff | simpl; lia].
    + intros H. destruct (IH H) as (pre & A & L). exists (c :: pre). split.
      * destruct (assignment_at_prefix _ _ _ A) as [t ->].
        apply assignment_at_shift in A.
        by apply (assignment_at_shift (c :: pre)).
      * intros pre' lit' A'. destruct (assignment_at_prefix _ _ _ A') as [t E].
        destruct pre' as [|a pre'].
        -- apply match_here_iff in A'. congruence.
        -- injection E as <- ->. apply (assignment_at_shift (c :: pre') t) in A'.
           simpl. apply le_n_S, (L pre' lit'). by apply assignment_at_shift.
Qed.

Lemma search_leftmost s pre lit :
  assignment_at s pre lit ->
  (forall pre' lit', assignment_at s pre' lit' -> length pre <= length pre') ->
  search s = Some lit.
Proof.
  intros A L. destruct (search s) as [g|] eqn:S.
  - destruct (search_Some _ _ S) as (pre0 & A0 & L0).
    assert (length pre0 = length pre) as El.
    { apply Nat.le_antisymm; [by eapply L0 | by eapply L]. }
    destruct (assignment_at_prefix _ _ _ A) as [t E].
    destruct (assignment_at_prefix _ _ _ A0) as [t0 E0].
    assert (pre0 = pre) as ->.
    { rewrite E in E0. by apply app_inj_1 in E0 as [-> _]. }
    f_equal. eapply assignment_at_unique; eauto.
  - exfalso. by eapply search_None.
Qed.

(** The group of a match is never empty. *)
Lemma search_nonempty s lit : search s = Some lit -> lit <> [].
Proof.
  intros H. destruct (search_Some _ _ H) as (pre & A & _).
  by destruct A as (? & ? & ? & ? & ? & _ & _ & _ & _ & _ & Hne & _).
Qed.

End TopicReFacts.


(** ** The extractor *)

Section Extractor.
Import TopicRe TopicReFacts.

Lemma no_match_before_sound n s :
  no_match_before n s = true ->
  forall pre lit, assignment_at s pre lit -> n <= length pre.
Proof.
  revert s. induction n as [|n IH]; intros s H pre lit A; [lia|].
  simpl in H. destruct (match_here s) eqn:M; [done|].
  destruct (assignment_at_prefix _ _ _ A) as [t E].
  destruct pre as [|c pre].
  - apply match_here_iff in A. congruence.
  - subst s. simpl. apply le_n_S. simpl in H.
    apply (IH _ H pre lit). by apply (assignment_at_shift (c :: pre) t) in A;
      apply assignment_at_shift.
Qed.

(** C7 (amended).  [extract_topic_from_code] returns [None] exactly on
    the texts without an occurrence of the pattern (the name, blanks,
    the equals sign, blanks, a quote of either kind, a non-empty text
    free of quotes, a quote of either kind); otherwise it returns the
    literal of the leftmost occurrence.  So on a text that holds the
    assignment of the double-quoted literal orders, it returns orders
    when no occurrence of the pattern starts further left. *)
Theorem extract_topic_first_assignment (code : str) :
  (extract_topic_from_code code = None <->
     forall pre lit, ~ assignment_at code pre lit)
  /\ (forall lit,
        extract_topic_from_code code = Some lit <->
        exists pre, assignment_at code pre lit
          /\ forall pre' lit', assignment_at code pre' lit' -> length pre <= length pre')
  /\ (forall pre post,
        code = pre ++ orders_assignment ++ post ->
        (forall pre' lit', assignment_at code pre' lit' -> length pre <= length pre') ->
        extract_topic_from_code code = Some ("orders" : str)).
Proof.
  unfold extract_topic_from_code. split_and!.
  - apply search_None.
  - intros lit. split; [apply search_Some|].
    intros (pre & A & L). by eapply search_leftmost.
  - intros pre post -> L. eapply search_leftmost; [|exact L].
    apply assignment_at_shift, match_here_iff. reflexivity.
Qed.

(** An instance: the assignment of orders between two statements. *)
Lemma extract_topic_first_assignment_witness :
  extract_topic_from_code ("consumer.poll(1.0); " ++ orders_assignment ++ "; print(1)")
  = Some ("orders" : str).
Proof.
  apply (proj2 (proj2 (extract_topic_first_assignment _))
           ("consumer.poll(1.0); " : str) ("; print(1)" : str) eq_refl).
  apply no_match_before_sound. vm_compute. reflexivity.
Defined.

(** C7 as stated fails: the text holds the assignment of orders, and the
    extractor returns the literal of the assignment before it. *)
Lemma extract_topic_later_assignment_ignored :
  occurs_in orders_assignment ("topic_name = 'x'; " ++ orders_assignment)
  /\ extract_topic_from_code ("topic_name = 'x'; " ++ orders_assignment) = Some ("x" : str)
  /\ extract_topic_from_code ("topic_name = 'x'; " ++ orders_assignment)
     <> Some ("orders" : str).
Proof.
  split_and!.
  - exists ("topic_name = 'x'; " : str), []. by rewrite app_nil_r.
  - reflexivity.
  - discriminate.
Qed.

(** The quotes around the literal need not be of one kind, and the name
    may be the end of a longer one. *)
Example extract_topic_mixed_quotes :
  extract_topic_from_code ("my_topic_name=" ++ dq :: "orders'") = Some ("orders" : str).
Proof. reflexivity. Qed.

(** What is written to the slot is never empty. *)
Lemma extract_topic_nonempty code t :
  extract_topic_from_code code = Some t -> nonempty t = true.
Proof. intros H. apply search_nonempty in H. by destruct t. Qed.

End Extractor.

(** ** The executor *)

Section Executor.
Context {host : Host}.
Import PyStrFacts.

(** An exception deriving from [Exception] that has a text comes back
    as a string with the prefix of execution errors. *)
Lemma run_code_safely_raised (code : str) (e : pyexc) (msg : str) :
  py_exec code = Raised e -> is_Exception e = true -> exc_str e = Returns msg ->
  run_code_safely code = Returns ("Error while executing AI code: " ++ msg).
Proof. unfold run_code_safely. intros -> He Hs. simpl. by rewrite He, Hs. Qed.


(** C2 (amended).  When the code runs to its end and the buffer can be
    read, [run_code_safely] returns the captured output with the blanks
    at both ends removed if that is not empty, whatever the variables
    are; otherwise the text of the variable [result] if there is one
    and [str] gives it (for an integer: when it has no more digits than
    the limit of the interpreter; beyond it, the error string of the
    [ValueError]); otherwise the placeholder.  Output made of blanks
    only counts as no output.  When the code runs to its end but the
    buffer cannot be read (the code closed it), what comes back is the
    error string of that failure, whatever was printed or assigned. *)
Theorem run_code_safely_result (code : str) :
  (forall stdout local_vars,
     py_exec code = Completed stdout local_vars ->
     (strip stdout <> [] -> run_code_safely code = Returns (strip stdout))
     /\ (forall v s,
           strip stdout = [] -> local_vars !! ("result" : str) = Some v ->
           py_str v = Returns s -> run_code_safely code = Returns s)
     /\ (forall z,
           strip stdout = [] -> local_vars !! ("result" : str) = Some (ObjInt z) ->
           (exceeds_digits int_max_str_digits z = false ->
            run_code_safely code = Returns (str_of_Z z))
           /\ (exceeds_digits int_max_str_digits z = true ->
               run_code_safely code
               = Returns ("Error while executing AI code: "
                          ++ "Exceeds the limit (" ++ str_of_Z (Z.of_nat int_max_str_digits)
                          ++ " digits) for integer string conversion; "
                          ++ "use sys.set_int_max_str_digits() to increase the limit")))
     /\ (strip stdout = [] -> local_vars !! ("result" : str) = None ->
         run_code_safely code = Returns ("<no result>" : str))
     /\ (strip stdout = [] <-> Forall (fun c => isspace c = true) stdout))
  /\ (forall e msg,
        py_exec code = Unreadable e -> is_Exception e = true -> exc_str e = Returns msg ->
        run_code_safely code = Returns ("Error while executing AI code: " ++ msg)).
Proof.
  split.
  - intros stdout local_vars E. unfold run_code_safely. rewrite E. split_and!.
    + intros H. by destruct (strip stdout).
    + intros v s -> -> Hs. simpl. by rewrite Hs.
    + intros z -> ->. cbn [nonempty default id py_str]. unfold int_str.
      split; intros ->; [done|]. cbn [try_except ValueError is_Exception].
      reflexivity.
    + by intros -> ->.
    + apply strip_by_nil.
  - intros e msg E He Hmsg. unfold run_code_safely. rewrite E.
    cbn [try_except]. rewrite He. cbn [mbind outcome_bind]. by rewrite Hmsg.
Qed.

End Executor.

(** Printed output wins over the variable [result]. *)
Lemma run_code_safely_result_witness :
  @run_code_safely (Sample.host []) "print(42); result = 7" = Returns ("42" : str).
Proof.
  refine (proj1 (proj1 (@run_code_safely_result (Sample.host []) "print(42); result = 7")
                   ("42" ++ [nl]) {[("result" : str) := ObjInt 7]} eq_refl) _).
  vm_compute. discriminate.
Defined.

(** C2 as stated fails: the code prints a line feed only, so the captured
    output is not empty, and what comes back is the variable [result]. *)
Lemma run_code_safely_blank_output :
  @py_exec (Sample.host []) "print(); result = 7"
    = Completed [nl] {[("result" : str) := ObjInt 7]}
  /\ [nl] <> ([] : str)
  /\ @run_code_safely (Sample.host []) "print(); result = 7" = Returns ("7" : str).
Proof. split_and!; [reflexivity | discriminate | reflexivity]. Qed.

(** The code closes the buffer, or leaves an integer of 4301 digits in
    [result]: what comes back is the error string. *)
Example run_code_safely_unreadable :
  @run_code_safely (Sample.host []) "import sys; sys.stdout.close(); result = 7"
  = Returns ("Error while executing AI code: I/O operation on closed file" : str)
  /\ @run_code_safely (Sample.host []) "result = 10**4300"
     = Returns ("Error while executing AI code: Exceeds the limit (4300 digits) "
                ++ "for integer string conversion; "
                ++ "use sys.set_int_max_str_digits() to increase the limit").
Proof. split; vm_compute; reflexivity. Qed.

(** The variable [result] alone, and neither output nor variable. *)
Example run_code_safely_result_only :
  @run_code_safely (Sample.host []) "result = 7" = Returns ("7" : str)
  /\ @run_code_safely (Sample.host []) "pass" = Returns ("<no result>" : str).
Proof. split; reflexivity. Qed.




(** ** The completion parser *)

Module ParserFacts.
Import PyStrFacts.

Lemma rstrip_by_split p s :
  exists ws, s = rstrip_by p s ++ ws /\ Forall (fun c => p c = true) ws.
Proof.
  destruct (lstrip_by_split p (reverse s)) as (ws & E & F).
  exists (reverse ws). split; [|by apply Forall_reverse].
  apply (f_equal reverse) in E. by rewrite reverse_involutive, reverse_app in E.
Qed.

Lemma strip_by_split p s :
  exists l r, s = l ++ strip_by p s ++ r
    /\ Forall (fun c => p c = true) l /\ Forall (fun c => p c = true) r.
Proof.
  destruct (lstrip_by_split p s) as (l & El & Fl).
  destruct (rstrip_by_split p (lstrip_by p s)) as (r & Er & Fr).
  exists l, r. unfold strip_by. rewrite <- Er. done.
Qed.

Lemma startswith_app s p : startswith (p ++ s) p = true.
Proof. induction p as [|a p IH]; simpl; [done|]. by case_bool_decide. Qed.

Lemma startswith_head s a p c :
  head s = Some c -> a <> c -> startswith s (a :: p) = false.
Proof. destruct s; intros [= ->] H; simpl. by case_bool_decide. Qed.

Lemma endswith_last s a p c :
  last s = Some c -> a <> c -> endswith s (p ++ [a]) = false.
Proof.
  intros H Hne. apply last_Some in H as [s' ->]. unfold endswith.
  rewrite !reverse_snoc. simpl. by case_bool_decide.
Qed.

Lemma json_ws_isspace c : json_ws c = true -> isspace c = true.
Proof.
  unfold json_ws. rewrite !orb_true_iff, !bool_decide_eq_true.
  by intros [[[->| ->]| ->]| ->].
Qed.

Lemma solid_not_space c : solid c = true -> isspace c = false.
Proof. unfold solid. rewrite andb_true_iff, negb_true_iff. tauto. Qed.

Lemma solid_not_backtick c : solid c = true -> "`"%char <> c.
Proof.
  unfold solid. rewrite andb_true_iff, !negb_true_iff, bool_decide_eq_false.
  intros [_ H] E. by apply H.
Qed.

(** The blanks around a document are all that [strip] removes from it. *)
Lemma strip_document l core r :
  Forall (fun c => json_ws c = true) l -> Forall (fun c => json_ws c = true) r ->
  json_text core -> strip (l ++ core ++ r) = core.
Proof.
  intros Hl Hr [(a & Ha & Sa) (z & Hz & Sz)]. unfold strip.
  rewrite strip_by_app by (eapply Forall_impl; eauto using json_ws_isspace).
  eauto using strip_by_solid, solid_not_space.
Qed.

End ParserFacts.

Section Parser.
Context {host : Host}.
Import PyStrFacts ParserFacts.

Lemma backtick_class c :
  bool_decide (c ∈ ("`" : str)) = bool_decide (c = "`"%char).
Proof. apply bool_decide_ext. simpl. apply list_elem_of_singleton. Qed.

Lemma lstrip_by_head_stop p s c :
  head s = Some c -> p c = false -> lstrip_by p s = s.
Proof. destruct s; intros [= ->] H. by apply lstrip_by_stop. Qed.

(** What [strip("`")] leaves of a fenced block. *)
Lemma strip_chars_fenced tag T c0 :
  head (tag ++ [nl]) = Some c0 -> "`"%char <> c0 ->
  strip_chars "`" (fenced tag T) = tag ++ nl :: T ++ [nl].
Proof.
  intros Hh Hc. unfold strip_chars, strip_by, fenced.
  rewrite (lstrip_by_app _ ("```" : str)).
  2:{ repeat constructor; by rewrite backtick_class. }
  rewrite (lstrip_by_head_stop _ _ c0).
  2:{ destruct tag; [exact Hh | exact Hh]. }
  2:{ rewrite backtick_class. by case_bool_decide. }
  replace (tag ++ nl :: T ++ nl :: ("```" : str))
    with ((tag ++ nl :: T ++ [nl]) ++ ("```" : str))
    by (by rewrite <- !app_assoc; simpl; rewrite <- app_assoc).
  rewrite rstrip_by_app.
  2:{ repeat constructor; by rewrite backtick_class. }
  replace (tag ++ nl :: T ++ [nl]) with ((tag ++ nl :: T) ++ [nl])
    by (by rewrite <- app_assoc).
  apply rstrip_by_stop. by rewrite backtick_class.
Qed.

Lemma strip_fenced tag T : strip (fenced tag T) = fenced tag T.
Proof.
  apply (strip_by_solid _ _ "`"%char "`"%char); try done.
  unfold fenced.
  replace (("```" : str) ++ tag ++ nl :: T ++ nl :: ("```" : str))
    with ((("```" : str) ++ tag ++ nl :: T ++ nl :: ("``" : str)) ++ ["`"%char]).
  - apply last_snoc.
  - rewrite <- !app_assoc. simpl. do 4 f_equal. rewrite <- app_assoc. done.
Qed.

(** A block with no tag: the fences go, the line feeds stay. *)
Lemma strip_fences_plain T : strip_fences (fenced [] T) = nl :: T ++ [nl].
Proof.
  unfold strip_fences.
  replace (startswith (fenced [] T) "```") with true
    by (symmetry; apply (startswith_app _ ("```" : str))).
  rewrite (strip_chars_fenced [] T nl) by done. simpl.
  replace (nl :: T ++ [nl]) with ((nl :: T) ++ [nl]) by done.
  rewrite (endswith_last _ "`"%char ("``" : str) nl); [done| |done].
  apply last_snoc.
Qed.

(** A block tagged json, in any letter case: the fences and the tag go,
    and the rest is stripped. *)
Lemma strip_fences_json tag T :
  lower tag = ("json" : str) ->
  strip_fences (fenced tag T)
  = if endswith (strip T) "```" then strip (slice_to_minus 3 (strip T)) else strip T.
Proof.
  intros Htag. unfold strip_fences.
  replace (startswith (fenced tag T) "```") with true
    by (symmetry; apply (startswith_app _ ("```" : str))).
  destruct tag as [|a [|b [|c [|d [|]]]]]; try discriminate.
  injection Htag as Ha Hb Hc Hd.
  rewrite (strip_chars_fenced _ T a); [|done|by intros <-].
  replace (lower ([a; b; c; d] ++ nl :: T ++ [nl]))
    with (("json" : str) ++ lower (nl :: T ++ [nl]))
    by (simpl; by rewrite Ha, Hb, Hc, Hd).
  rewrite startswith_app. cbn [slice_from drop app].
  replace (strip (nl :: T ++ [nl])) with (strip T); [done|].
  symmetry. apply (strip_by_app isspace [nl] T [nl]); by repeat constructor.
Qed.

(** C4 (amended).  Take a text that [json.loads] itself decodes, and a
    decoder that skips the JSON whitespace around a document, whose
    documents start and end with a character that is neither blank nor a
    backtick.  Then the text decodes to the same value as a completion on
    its own and inside a fenced block, with no tag or with the tag json
    in any letter case. *)
Theorem fenced_completion_decodes_alike (T : str) (v : json) (tag : str) :
  decoder_laws json_loads ->
  json_loads T = Some v ->
  tag = [] \/ lower tag = ("json" : str) ->
  decode_completion T = Returns v /\ decode_completion (fenced tag T) = Returns v.
Proof.
  intros [Hws Hshape] HT Htag.
  destruct (Hshape _ _ HT) as (l & core & r & -> & Hl & Hr & Hcore).
  assert (json_loads core = Some v) as Hv by (by rewrite <- (Hws l core r)).
  pose proof (strip_document l core r Hl Hr Hcore) as Hstrip.
  destruct Hcore as [(a & Ha & Sa) (z & Hz & Sz)].
  unfold decode_completion. split.
  - rewrite Hstrip. unfold strip_fences.
    assert (startswith core "```" = false) as ->
      by (apply (startswith_head core "`"%char ("``" : str) a);
          eauto using solid_not_backtick).
    by rewrite Hv.
  - rewrite strip_fenced. destruct Htag as [->|Htag].
    + rewrite strip_fences_plain.
      change (nl :: (l ++ core ++ r) ++ [nl]) with ([nl] ++ (l ++ core ++ r) ++ [nl]).
      rewrite (Hws [nl] (l ++ core ++ r) [nl]) by by repeat constructor.
      by rewrite HT.
    + rewrite strip_fences_json, Hstrip by done.
      assert (endswith core "```" = false) as ->
        by (apply (endswith_last core "`"%char ("``" : str) z);
            eauto using solid_not_backtick).
      by rewrite Hv.
Qed.

End Parser.

(** The sample decoder obeys the laws assumed of [json.loads]. *)
Lemma sample_decoder_laws : decoder_laws Sample.loads.
Proof.
  split.
  - intros l s r Hl Hr. unfold Sample.loads.
    by rewrite PyStrFacts.strip_by_app.
  - intros s v H. unfold Sample.loads in H.
    destruct (ParserFacts.strip_by_split json_ws s) as (l & r & E & Hl & Hr).
    exists l, (strip_by json_ws s), r. split_and!; try done.
    revert H. generalize (strip_by json_ws s). intros core H.
    assert (Forall json_text (map fst Sample.documents)) as F.
    { unfold Sample.documents, Sample.snippets. simpl.
      repeat (apply Forall_cons_2; [split; eexists; split; vm_compute; reflexivity|]).
      apply Forall_nil_2. }
    rewrite Forall_forall in F. apply F. clear F.
    induction Sample.documents as [|[t w] docs IH]; [done|].
    simpl in H. case_bool_decide; [subst; by left | right; by apply IH].
Qed.

Lemma fenced_completion_decodes_alike_witness :
  @decode_completion (Sample.host []) (Sample.completion_text "pass" "ok")
    = Returns (Sample.completion_value "pass" "ok")
  /\ @decode_completion (Sample.host []) (fenced "JSON" (Sample.completion_text "pass" "ok"))
     = Returns (Sample.completion_value "pass" "ok").
Proof.
  apply (@fenced_completion_decodes_alike (Sample.host [])).
  - exact sample_decoder_laws.
  - reflexivity.
  - right. reflexivity.
Defined.

(** C4 as stated fails: a completion that is itself a fenced block is
    decoded, and the same completion inside a second block is not. *)
Lemma fenced_twice_not_decoded :
  @decode_completion (Sample.host [])
     (fenced "json" (Sample.completion_text "pass" "ok"))
    = Returns (Sample.completion_value "pass" "ok")
  /\ @decode_completion (Sample.host [])
       (fenced "json" (fenced "json" (Sample.completion_text "pass" "ok")))
     = Raises (HTTPException 500
                 ("AI response was not valid JSON: ```json" ++
                  nl :: Sample.completion_text "pass" "ok")).
Proof. split; vm_compute; reflexivity. Qed.

(** Nor is a block with no tag stripped of blanks that are not JSON
    whitespace: a form feed before the document is removed from the bare
    completion and stays inside the block. *)
Example form_feed_in_plain_block :
  @decode_completion (Sample.host [])
     ("012"%char :: Sample.completion_text "pass" "ok")
    = Returns (Sample.completion_value "pass" "ok")
  /\ @decode_completion (Sample.host [])
       (fenced [] ("012"%char :: Sample.completion_text "pass" "ok"))
     = Raises (HTTPException 500
                 ("AI response was not valid JSON: " ++
                  nl :: "012"%char :: Sample.completion_text "pass" "ok" ++ [nl])).
Proof. split; vm_compute; reflexivity. Qed.


(** ** The request handler *)

Section HandlerFacts.
Context {host : Host}.

Lemma kafka_agent_unfold req : kafka_agent req = ReadTopic (kafka_agent_from req).
Proof. reflexivity. Qed.

Lemma exc_str_cases e :
  (exists s, exc_str e = Returns s) \/ (exists e', exc_str e = Raises e')
  \/ exc_str e = Hangs.
Proof. destruct e as [st d|b [s|e']|b]; simpl; eauto. Qed.

(** A raised exception leaves the handler failed, caught or not. *)
Lemma report_failed e :
  exists r, (forall p, r <> Returns p)
    /\ (if is_Exception e then report e else Ret (Raises e)) = Ret r.
Proof.
  destruct (is_Exception e); [|eexists; split; [|reflexivity]; done].
  unfold report.
  destruct (exc_str_cases e) as [[s ->]|[[e' ->]| ->]]; cbn;
    eexists; (split; [|reflexivity]); done.
Qed.

(** After the log line: the read for the reply when the [print]
    returned, the end of the handler when it did not. *)
Lemma after_log_cases req code explanation result logged :
  (logged = Returns tt
   /\ after_log req code explanation result logged
      = ReadTopic (fun last_topic =>
          Ret (Returns {| Response.prompt := prompt req;
                          Response.topic_in_use := last_topic;
                          Response.explanation := explanation;
                          Response.executed_code := JStr code;
                          Response.result := result |})))
  \/ (logged <> Returns tt
      /\ exists r, (forall p, r <> Returns p)
           /\ after_log req code explanation result logged = Ret r).
Proof.
  destruct logged as [[]|e|]; simpl.
  - by left.
  - right. split; [done|]. apply report_failed.
  - right. split; [done|]. by exists Hangs.
Qed.

(** Closes a case in which the exception [e] was raised inside the [try]. *)
Ltac raised_in_try e :=
  let r := fresh "r" in
  let Hr := fresh "Hr" in
  let E := fresh "E" in
  cbn;
  first [ by constructor
        | destruct (report_failed e) as (r & Hr & E);
          unfold report in E; cbn in E; rewrite E; by constructor ].

Lemma kafka_agent_from_form req remembered_topic :
  handler_form req (kafka_agent_from req remembered_topic).
Proof.
  unfold kafka_agent_from.
  destruct (ask_openai_for_code (prompt req) remembered_topic) as [ai|e|]; cbn.
  2:{ raised_in_try e. }
  2:{ by constructor. }
  unfold respond.
  destruct ai as [| | | | |l|d];
    try match goal with
        | |- context [dict_get ?v _ _] =>
            raised_in_try
              (AttributeError ("'" ++ type_name v ++ "' object has no attribute 'get'"))
        end.
  cbn.
  match goal with
  | |- context [truthy ?c] => remember c as code0 eqn:Hcode; clear Hcode
  end.
  destruct (truthy code0) eqn:Ht; cbn.
  2:{ raised_in_try (HTTPException 500 "AI did not return code"). }
  destruct code0 as [| | | |code|l|d'];
    try match goal with
        | |- context [extract_topic_from_code_any ?v] =>
            raised_in_try
              (TypeError ("expected string or bytes-like object, got '"
                          ++ type_name v ++ "'"))
        end.
  cbn.
  destruct (run_code_safely code) as [result|e|]; cbn.
  2:{ raised_in_try e. }
  2:{ by constructor. }
  destruct (extract_topic_from_code code) as [topic|] eqn:Hx; cbn.
  - rewrite (extract_topic_nonempty _ _ Hx). cbn.
    eapply (form_remember req code _ result topic); [done..|].
    intros logged. by destruct (py_print _) as [[]|e|].
  - by apply form_keep.
Qed.

(** The accesses of a handler that has come to its end: one read when
    it failed before any write; two reads when it replied and found no
    topic; a read, the write of the topic and two reads when it replied
    and found one; a read, the write and one read when the log line
    after the write failed.  The reply carries the value of the last
    read. *)
Lemma kafka_agent_trace_done req evs r :
  thread_trace (kafka_agent req) evs (Ret r) ->
  (exists m0, evs = [EvRead m0] /\ forall p, r <> Returns p)
  \/ (exists m0 v code explanation result,
        evs = [EvRead m0; EvRead v]
        /\ extract_topic_from_code code = None
        /\ r = Returns {| Response.prompt := prompt req;
                          Response.topic_in_use := v;
                          Response.explanation := explanation;
                          Response.executed_code := JStr code;
                          Response.result := result |})
  \/ (exists m0 topic v1 v code explanation result,
        evs = [EvRead m0; EvWrite topic; EvRead v1; EvRead v]
        /\ extract_topic_from_code code = Some topic
        /\ r = Returns {| Response.prompt := prompt req;
                          Response.topic_in_use := v;
                          Response.explanation := explanation;
                          Response.executed_code := JStr code;
                          Response.result := result |})
  \/ (exists m0 topic v1,
        evs = [EvRead m0; EvWrite topic; EvRead v1]
        /\ py_print [("Remembering topic: " : str) ++ format_topic v1] <> Returns tt
        /\ forall p, r <> Returns p).
Proof.
  rewrite kafka_agent_unfold. inversion 1 as [| k0 m0 evs' p' H' |]; subst.
  destruct (kafka_agent_from_form req m0)
    as [r' Hr|code ex res Hne Hx|code ex res t k Hne Hx Hk].
  - inversion H'; subst. left. eauto.
  - inversion H' as [| ? v ? ? H2 |]; subst. inversion H2; subst.
    right; left. by exists m0, v, code, ex, res.
  - inversion H' as [| | ? ? ? ? H2]; subst.
    inversion H2 as [| ? v1 ? ? H3 |]; subst. rewrite Hk in H3.
    destruct (after_log_cases req code ex res
                (py_print [("Remembering topic: " : str) ++ format_topic v1]))
      as [[_ E]|[Hp (r' & Hr & E)]]; rewrite E in H3.
    + inversion H3 as [| ? v ? ? H4 |]; subst. inversion H4; subst.
      right; right; left. by exists m0, t, v1, v, code, ex, res.
    + inversion H3; subst. right; right; right. by exists m0, t, v1.
Qed.

(** Whatever a handler has written so far is an extracted topic: a text
    that is not empty. *)
Lemma kafka_agent_trace_writes req evs p' :
  thread_trace (kafka_agent req) evs p' ->
  forall t, EvWrite t ∈ evs -> nonempty t = true.
Proof.
  rewrite kafka_agent_unfold. intros H t Ht.
  inversion H as [| k0 m0 evs' ? H' |]; subst; [by apply elem_of_nil in Ht|].
  apply elem_of_cons in Ht as [[=]|Ht].
  destruct (kafka_agent_from_form req m0)
    as [r' Hr|code ex res Hne Hx|code ex res u k Hne Hx Hk].
  - inversion H'; subst. by apply elem_of_nil in Ht.
  - inversion H' as [| ? v ? ? H2 |]; subst; [by apply elem_of_nil in Ht|].
    apply elem_of_cons in Ht as [[=]|Ht].
    inversion H2; subst. by apply elem_of_nil in Ht.
  - inversion H' as [| | ? ? ? ? H2]; subst; [by apply elem_of_nil in Ht|].
    apply elem_of_cons in Ht as [[= ->]|Ht]; [by eapply extract_topic_nonempty|].
    inversion H2 as [| ? v1 ? ? H3 |]; subst; [by apply elem_of_nil in Ht|].
    apply elem_of_cons in Ht as [[=]|Ht]. rewrite Hk in H3.
    destruct (after_log_cases req code ex res
                (py_print [("Remembering topic: " : str) ++ format_topic v1]))
      as [[_ E]|[_ (r' & _ & E)]]; rewrite E in H3.
    + inversion H3 as [| ? v ? ? H4 |]; subst; [by apply elem_of_nil in Ht|].
      apply elem_of_cons in Ht as [[=]|Ht].
      inversion H4; subst. by apply elem_of_nil in Ht.
    + inversion H3; subst. by apply elem_of_nil in Ht.
Qed.

(** One handler alone: what it returns, what it leaves in the slot and
    what it did to it, by the form it takes after its first read.  The
    last case is the handler that has written the topic and fails at
    the log line. *)
Lemma kafka_agent_run req m :
  (exists r, (forall p, r <> Returns p)
      /\ kafka_agent_from req m = Ret r
      /\ run_prog (kafka_agent req) m = (r, m, [EvRead m]))
  \/ (exists code explanation result,
        nonempty code = true
        /\ extract_topic_from_code code = None
        /\ run_prog (kafka_agent req) m
           = (Returns {| Response.prompt := prompt req;
                         Response.topic_in_use := m;
                         Response.explanation := explanation;
                         Response.executed_code := JStr code;
                         Response.result := result |},
              m, [EvRead m; EvRead m]))
  \/ (exists code explanation result topic,
        nonempty code = true
        /\ extract_topic_from_code code = Some topic
        /\ run_prog (kafka_agent req) m
           = (Returns {| Response.prompt := prompt req;
                         Response.topic_in_use := Some topic;
                         Response.explanation := explanation;
                         Response.executed_code := JStr code;
                         Response.result := result |},
              Some topic,
              [EvRead m; EvWrite topic; EvRead (Some topic); EvRead (Some topic)]))
  \/ (exists r topic,
        (forall p, r <> Returns p)
        /\ py_print [("Remembering topic: " : str) ++ topic] <> Returns tt
        /\ run_prog (kafka_agent req) m
           = (r, Some topic, [EvRead m; EvWrite topic; EvRead (Some topic)])).
Proof.
  rewrite kafka_agent_unfold. cbn [run_prog].
  pose proof (kafka_agent_from_form req m) as F.
  remember (kafka_agent_from req m) as q eqn:Eq.
  destruct F as [r' Hr|code ex res Hne Hx|code ex res t k Hne Hx Hk].
  - left. by exists r'.
  - right; left. by exists code, ex, res.
  - cbn [run_prog]. rewrite Hk.
    destruct (after_log_cases req code ex res
                (py_print [("Remembering topic: " : str) ++ format_topic (Some t)]))
      as [[_ E]|[Hp (r' & Hr & E)]]; rewrite E.
    + right; right; left. by exists code, ex, res, t.
    + right; right; right. by exists r', t.
Qed.

End HandlerFacts.

(** ** Handlers in flight together *)

Section Interleaving.
Context {A : Type}.
Implicit Types (p : prog A) (ts : list (prog A)) (tr : list (nat * event)).

Lemma last_write_read m i v tr : last_write m ((i, EvRead v) :: tr) = last_write m tr.
Proof. done. Qed.

Lemma last_write_write m i t tr :
  last_write m ((i, EvWrite t) :: tr) = last_write (Some t) tr.
Proof.
  unfold last_write.
  change (writes ((i, EvWrite t) :: tr)) with ((i, t) :: writes tr).
  rewrite last_cons. by destruct (last (writes tr)) as [[j u]|].
Qed.

Lemma events_of_here i ev tr : events_of i ((i, ev) :: tr) = ev :: events_of i tr.
Proof. unfold events_of. simpl. by rewrite bool_decide_eq_true_2. Qed.

Lemma events_of_other i j ev tr : j <> i -> events_of i ((j, ev) :: tr) = events_of i tr.
Proof. intros H. unfold events_of. simpl. by rewrite bool_decide_eq_false_2. Qed.

Lemma thread_step_slot m p ev m1 p' tr :
  thread_step m p = Some (ev, m1, p') ->
  forall i, last_write m ((i, ev) :: tr) = last_write m1 tr.
Proof.
  destruct p as [r|k|t k]; intros [= <- <- <-] i;
    [apply last_write_read | apply last_write_write].
Qed.

Lemma thread_step_trace m p ev m1 p' evs p'' :
  thread_step m p = Some (ev, m1, p') ->
  thread_trace p' evs p'' -> thread_trace p (ev :: evs) p''.
Proof. destruct p as [r|k|t k]; intros [= <- <- <-]; by constructor. Qed.

(** The slot ends with what was written last: the last writer wins. *)
Lemma run_schedule_last_write sched m ts m' ts' tr :
  run_schedule sched m ts = (m', ts', tr) -> m' = last_write m tr.
Proof.
  revert m ts m' ts' tr.
  induction sched as [|i sched IH]; intros m ts m' ts' tr; simpl.
  - by intros [= <- <- <-].
  - destruct (ts !! i ≫= thread_step m) as [[[ev m1] p']|] eqn:E.
    + destruct (run_schedule sched m1 (<[i:=p']> ts)) as [[m2 ts2] tr2] eqn:R.
      intros [= <- <- <-]. apply IH in R as ->.
      destruct (ts !! i) as [p|]; [|done]. simpl in E.
      symmetry. by eapply thread_step_slot.
    + apply IH.
Qed.

(** Each handler sees its own accesses in its own order. *)
Lemma run_schedule_thread sched m ts m' ts' tr i p :
  run_schedule sched m ts = (m', ts', tr) ->
  ts !! i = Some p ->
  exists p', ts' !! i = Some p' /\ thread_trace p (events_of i tr) p'.
Proof.
  revert m ts m' ts' tr p.
  induction sched as [|j sched IH]; intros m ts m' ts' tr p; simpl.
  - intros [= <- <- <-] Hp. exists p. split; [done | constructor].
  - destruct (ts !! j ≫= thread_step m) as [[[ev m1] q']|] eqn:E.
    + destruct (run_schedule sched m1 (<[j:=q']> ts)) as [[m2 ts2] tr2] eqn:R.
      intros [= <- <- <-] Hp.
      destruct (ts !! j) as [q|] eqn:Hq; [|done]. simpl in E.
      destruct (decide (j = i)) as [->|Hij].
      * rewrite events_of_here. rewrite Hp in Hq. injection Hq as <-.
        destruct (IH _ _ _ _ _ q' R) as (p' & Hp' & T).
        { apply list_lookup_insert_eq. by eapply lookup_lt_Some. }
        exists p'. split; [done|]. by eapply thread_step_trace.
      * rewrite events_of_other by done.
        destruct (IH _ _ _ _ _ p R) as (p' & Hp' & T).
        { by rewrite list_lookup_insert_ne. }
        by exists p'.
    + intros R Hp. by eapply IH.
Qed.

(** Only handlers of the pool appear in the trace. *)
Lemma run_schedule_names sched m ts m' ts' tr i ev :
  run_schedule sched m ts = (m', ts', tr) -> (i, ev) ∈ tr -> i < length ts.
Proof.
  revert m ts m' ts' tr.
  induction sched as [|j sched IH]; intros m ts m' ts' tr; simpl.
  - intros [= <- <- <-] H. by apply elem_of_nil in H.
  - destruct (ts !! j ≫= thread_step m) as [[[ev' m1] q']|] eqn:E.
    + destruct (run_schedule sched m1 (<[j:=q']> ts)) as [[m2 ts2] tr2] eqn:R.
      intros [= <- <- <-] H.
      destruct (ts !! j) as [q|] eqn:Hq; [|done].
      apply elem_of_cons in H as [[= -> ->]|H]; [by eapply lookup_lt_Some|].
      apply (IH _ _ _ _ _ R) in H. by rewrite length_insert in H.
    + apply IH.
Qed.

(** One handler run alone is one of the schedules. *)
Lemma run_prog_schedule p m :
  exists sched,
    run_schedule sched m [p]
    = ((run_prog p m).1.2, [Ret (run_prog p m).1.1], map (pair 0) (run_prog p m).2).
Proof.
  revert m. induction p as [r|k IH|t k IH]; intros m.
  - by exists [].
  - destruct (IH m m) as [sched E]. exists (0 :: sched). simpl.
    change (<[0:=k m]> [ReadTopic k]) with [k m]. rewrite E.
    by destruct (run_prog (k m) m) as [[r m'] tr].
  - destruct (IH (Some t)) as [sched E]. exists (0 :: sched). simpl.
    change (<[0:=k]> [WriteTopic t k]) with [k]. rewrite E.
    by destruct (run_prog k (Some t)) as [[r m'] tr].
Qed.

End Interleaving.

(** ** Failures and the slot *)

Section Failures.
Context {host : Host}.

Lemma run_kafka_agent req m :
  run_prog (kafka_agent req) m
  = let '(r, m', tr) := run_prog (kafka_agent_from req m) m in (r, m', EvRead m :: tr).
Proof. reflexivity. Qed.

Lemma occurs_in_trans s t u : occurs_in s t -> occurs_in t u -> occurs_in s u.
Proof.
  intros (a & b & ->) (c & d & ->). exists (c ++ a), (b ++ d).
  by rewrite <- !app_assoc.
Qed.

(** C8 (amended).  When the cleaned completion is not decoded and the
    debug line was printed, [ask_openai_for_code] raises an
    [HTTPException] with status 500 whose detail ends with the cleaned
    text, and the request fails with status 500 and the text of that
    exception as its detail: the cleaned text is part of it as soon as
    the text of an [HTTPException] shows its detail.  When the [print]
    of the debug line raises, the text of its exception is the detail
    instead. *)
Theorem invalid_completion_reported (req : PromptRequest) (m : option str) (content : str) :
  chat_completion (system_prompt m) (prompt req) = Returns content ->
  json_loads (strip_fences (strip content)) = None ->
  (py_print [("AI RAW RESPONSE:" : str); strip content] = Returns tt ->
   ask_openai_for_code (prompt req) m
   = Raises (HTTPException 500
               ("AI response was not valid JSON: " ++ strip_fences (strip content)))
   /\ occurs_in (strip_fences (strip content))
        ("AI response was not valid JSON: " ++ strip_fences (strip content))
   /\ run_prog (kafka_agent req) m
      = (Raises (HTTPException 500
                   (HTTPException_str 500
                      ("AI response was not valid JSON: " ++ strip_fences (strip content)))),
         m, [EvRead m])
   /\ ((forall status detail, occurs_in detail (HTTPException_str status detail)) ->
       occurs_in (strip_fences (strip content))
         (HTTPException_str 500
            ("AI response was not valid JSON: " ++ strip_fences (strip content)))))
  /\ (forall e msg,
        py_print [("AI RAW RESPONSE:" : str); strip content] = Raises e ->
        is_Exception e = true -> exc_str e = Returns msg ->
        run_prog (kafka_agent req) m = (Raises (HTTPException 500 msg), m, [EvRead m])).
Proof.
  intros Hc Hl. split.
  - intros Hp.
    assert (ask_openai_for_code (prompt req) m
            = Raises (HTTPException 500
                        ("AI response was not valid JSON: " ++ strip_fences (strip content))))
      as Hask.
    { unfold ask_openai_for_code. rewrite Hc. cbn [mbind outcome_bind].
      rewrite Hp. cbn [mbind outcome_bind].
      unfold decode_completion. by rewrite Hl. }
    assert (occurs_in (strip_fences (strip content))
              ("AI response was not valid JSON: " ++ strip_fences (strip content))) as Hin
      by (by exists ("AI response was not valid JSON: " : str), []; rewrite app_nil_r).
    split_and!; [exact Hask | exact Hin | |].
    + rewrite run_kafka_agent. unfold kafka_agent_from. rewrite Hask. reflexivity.
    + intros Hstr. eapply occurs_in_trans; [exact Hin | apply Hstr].
  - intros e msg Hp He Hmsg. rewrite run_kafka_agent.
    unfold kafka_agent_from, ask_openai_for_code.
    rewrite Hc. cbn [mbind outcome_bind]. rewrite Hp. cbn. rewrite He.
    unfold report. by rewrite Hmsg.
Qed.

(** C5 (amended).  A completion decoded to an object with no [code], or
    with a [code] that counts as false (the empty string, null, zero),
    makes the request fail with status 500 and leaves the slot as it
    was.  A request that does not end with a reply has read the slot
    once and has not written it, alone or among other requests, in
    every case but one: it has written the topic of its code, read the
    slot for the log line, and the [print] of that line has not
    returned. *)
Theorem failing_request_leaves_memory (req : PromptRequest) (m : option str) :
  (forall d,
      ask_openai_for_code (prompt req) m = Returns (JDict d) ->
      truthy (default JNull (d !! ("code" : str))) = false ->
      run_prog (kafka_agent req) m
      = (Raises (HTTPException 500 (HTTPException_str 500 "AI did not return code")),
         m, [EvRead m]))
  /\ (forall r m' tr,
        run_prog (kafka_agent req) m = (r, m', tr) ->
        (forall p, r <> Returns p) ->
        (m' = m /\ tr = [EvRead m])
        \/ (exists topic,
              m' = Some topic
              /\ tr = [EvRead m; EvWrite topic; EvRead (Some topic)]
              /\ py_print [("Remembering topic: " : str) ++ topic] <> Returns tt))
  /\ (forall evs r,
        thread_trace (kafka_agent req) evs (Ret r) ->
        (forall p, r <> Returns p) ->
        (exists m0, evs = [EvRead m0])
        \/ (exists m0 topic logged,
              evs = [EvRead m0; EvWrite topic; EvRead logged]
              /\ py_print [("Remembering topic: " : str) ++ format_topic logged]
                 <> Returns tt)).
Proof.
  split_and!.
  - intros d Hask Hcode. rewrite run_kafka_agent. unfold kafka_agent_from.
    rewrite Hask. cbn. cbn in Hcode. by rewrite Hcode.
  - intros r m' tr Hrun Hr.
    destruct (kafka_agent_run req m) as
      [(r' & _ & _ & E)|[(c & ex & res & _ & _ & E)
                        |[(c & ex & res & t & _ & _ & E)|(r' & t & _ & Hp & E)]]];
      rewrite E in Hrun; injection Hrun as <- <- <-.
    + by left.
    + by destruct (Hr _ eq_refl).
    + by destruct (Hr _ eq_refl).
    + right. by exists t.
  - intros evs r T Hr.
    destruct (kafka_agent_trace_done _ _ _ T) as
      [(m0 & -> & _)|[(m0 & v & c & ex & res & _ & _ & ->)
                     |[(m0 & t & v1 & v & c & ex & res & _ & _ & ->)
                      |(m0 & t & v1 & -> & Hp & _)]]].
    + left. by exists m0.
    + by destruct (Hr _ eq_refl).
    + by destruct (Hr _ eq_refl).
    + right. by exists m0, t, v1.
Qed.

(** C6 (amended).  When the code is a string, running it raises an
    exception that derives from [Exception] and has a text, and the log
    line of a topic found in the code is printed, the request still ends
    with a reply: its result is that text behind the prefix of execution
    errors, its prompt, explanation and code are those of the request
    and of the completion, and its topic is the one extracted from the
    code, or the remembered one when there is none. *)
Theorem execution_fault_not_fatal (req : PromptRequest) (m : option str)
    (d : gmap str json) (code : str) (e : pyexc) (msg : str) :
  ask_openai_for_code (prompt req) m = Returns (JDict d) ->
  d !! ("code" : str) = Some (JStr code) ->
  nonempty code = true ->
  py_exec code = Raised e ->
  is_Exception e = true ->
  exc_str e = Returns msg ->
  (forall topic, extract_topic_from_code code = Some topic ->
     py_print [("Remembering topic: " : str) ++ topic] = Returns tt) ->
  (run_prog (kafka_agent req) m).1
  = (Returns {| Response.prompt := prompt req;
                Response.topic_in_use :=
                  match extract_topic_from_code code with
                  | Some topic => Some topic
                  | None => m
                  end;
                Response.explanation := default (JStr "") (d !! ("explanation" : str));
                Response.executed_code := JStr code;
                Response.result := "Error while executing AI code: " ++ msg |},
     match extract_topic_from_code code with
     | Some topic => Some topic
     | None => m
     end).
Proof.
  intros Hask Hcode Hne Hexec He Hmsg Hlog.
  pose proof (run_code_safely_raised code e msg Hexec He Hmsg) as Hrun.
  rewrite run_kafka_agent. unfold kafka_agent_from. rewrite Hask.
  cbn. cbn in Hcode. rewrite Hcode. cbn. rewrite Hne. cbn. rewrite Hrun. cbn.
  destruct (extract_topic_from_code code) as [topic|] eqn:Hx; cbn; [|done].
  rewrite (extract_topic_nonempty _ _ Hx). cbn.
  specialize (Hlog topic eq_refl). cbn in Hlog. by rewrite Hlog.
Qed.

End Failures.

(** With Starlette's text of the exception, status and detail. *)
Lemma invalid_completion_reported_witness :
  run_prog (@kafka_agent (Sample.host "oops") {| prompt := "hello" |}) None
  = (Raises (HTTPException 500 ("500: AI response was not valid JSON: oops" : str)),
     None, [EvRead None])
  /\ occurs_in ("oops" : str) ("500: AI response was not valid JSON: oops" : str).
Proof.
  pose proof (proj1 (@invalid_completion_reported (Sample.host "oops")
                       {| prompt := "hello" |} None "oops" eq_refl eq_refl) eq_refl)
    as (_ & _ & Hrun & Hin).
  split; [exact Hrun|].
  apply Hin. intros status detail. exists (str_of_Z status ++ ": "), []. simpl.
  by rewrite app_nil_r, <- app_assoc.
Defined.

Lemma failing_request_leaves_memory_witness :
  run_prog (@kafka_agent (Sample.host Sample.no_code_text) {| prompt := "retention?" |})
    (Some ("orders" : str))
  = (Raises (HTTPException 500 ("500: AI did not return code" : str)),
     Some ("orders" : str), [EvRead (Some ("orders" : str))]).
Proof.
  refine (proj1 (@failing_request_leaves_memory (Sample.host Sample.no_code_text)
                   {| prompt := "retention?" |} (Some ("orders" : str)))
            {[("explanation" : str) := JStr "Which topic do you mean?"]} _ _);
    vm_compute; reflexivity.
Defined.

Lemma execution_fault_not_fatal_witness :
  (run_prog (@kafka_agent (Sample.host (Sample.completion_text "topic_name = 'a'; 1/0" "ok"))
               {| prompt := "retention of a" |}) None).1
  = (Returns {| Response.prompt := "retention of a";
                Response.topic_in_use := Some ("a" : str);
                Response.explanation := JStr "ok";
                Response.executed_code := JStr "topic_name = 'a'; 1/0";
                Response.result := "Error while executing AI code: division by zero" |},
     Some ("a" : str)).
Proof.
  refine (@execution_fault_not_fatal
            (Sample.host (Sample.completion_text "topic_name = 'a'; 1/0" "ok"))
            {| prompt := "retention of a" |} None
            (<[("code" : str) := JStr "topic_name = 'a'; 1/0"]>
               {[("explanation" : str) := JStr "ok"]})
            "topic_name = 'a'; 1/0"
            (PyExc true (inl ("division by zero" : str))) "division by zero"
            _ _ _ _ _ _ _);
    vm_compute; reflexivity.
Defined.

(** C8 as stated fails: on a standard output that encodes to ASCII the
    debug line of a completion with an accented letter cannot be
    printed; the request fails with the text of that error, in which the
    cleaned text does not occur. *)
Lemma invalid_completion_print_fails :
  Sample.loads (strip_fences (strip Sample.accent_topic)) = None
  /\ run_prog (@kafka_agent (Sample.host_ascii Sample.accent_topic) {| prompt := "hello" |})
       None
     = (Raises (HTTPException 500
          ("'ascii' codec can't encode character '\xe9' in position 3: "
           ++ "ordinal not in range(128)")),
        None, [EvRead None])
  /\ ~ occurs_in (strip_fences (strip Sample.accent_topic))
         ("'ascii' codec can't encode character '\xe9' in position 3: "
          ++ "ordinal not in range(128)").
Proof.
  split_and!; [vm_compute; reflexivity..|].
  intros (pre & post & E).
  assert ("233"%char ∈ pre ++ strip_fences (strip Sample.accent_topic) ++ post) as Hin.
  { rewrite !elem_of_app. right; left. vm_compute. set_solver. }
  rewrite <- E in Hin. vm_compute in Hin.
  repeat (apply elem_of_cons in Hin as [Hin|Hin]; [discriminate|]).
  by apply elem_of_nil in Hin.
Qed.

(** C5 as stated fails: the code names a topic with an accented letter,
    the topic is written to the slot, and on a standard output that
    encodes to ASCII the log line after the write cannot be printed; the
    request fails with status 500 and the slot holds the new topic. *)
Lemma failing_request_overwrites_memory :
  @ask_openai_for_code (Sample.host_ascii Sample.accent_text) "retention?"
     (Some ("orders" : str))
  = Returns (Sample.completion_value Sample.accent_code "ok")
  /\ extract_topic_from_code Sample.accent_code = Some Sample.accent_topic
  /\ run_prog (@kafka_agent (Sample.host_ascii Sample.accent_text)
                 {| prompt := "retention?" |}) (Some ("orders" : str))
     = (Raises (HTTPException 500
          ("'ascii' codec can't encode character '\xe9' in position 22: "
           ++ "ordinal not in range(128)")),
        Some Sample.accent_topic,
        [EvRead (Some ("orders" : str)); EvWrite Sample.accent_topic;
         EvRead (Some Sample.accent_topic)]).
Proof. split_and!; vm_compute; reflexivity. Qed.

(** C6 as stated fails: the generated code reaches [exec], raises
    [SystemExit], and the request ends with that exception, not a reply. *)
Lemma execution_fault_SystemExit_fatal :
  @ask_openai_for_code (Sample.host (Sample.completion_text "raise SystemExit" "ok"))
     "stop" None
  = Returns (Sample.completion_value "raise SystemExit" "ok")
  /\ Sample.exec "raise SystemExit" = Raised (PyExc false (inl []))
  /\ run_prog (@kafka_agent (Sample.host (Sample.completion_text "raise SystemExit" "ok"))
                 {| prompt := "stop" |}) None
     = (Raises (PyExc false (inl [])), None, [EvRead None]).
Proof. split_and!; vm_compute; reflexivity. Qed.

(** A [code] that is not a string reaches [exec] too; the extractor then
    raises, and the request fails with status 500. *)
Example code_not_a_string_fatal :
  run_prog (@kafka_agent (Sample.host Sample.int_code_text) {| prompt := "five" |}) None
  = (Raises (HTTPException 500 ("expected string or bytes-like object, got 'int'" : str)),
     None, [EvRead None]).
Proof. vm_compute. reflexivity. Qed.

(** ** The remembered topic *)

Section Memory.

Lemma elem_of_writes i t tr : (i, t) ∈ writes tr <-> (i, EvWrite t) ∈ tr.
Proof.
  unfold writes. rewrite list_elem_of_omap. split.
  - intros ([j [v|u]] & H & E); [done|]. by injection E as -> ->.
  - intros H. by exists (i, EvWrite t).
Qed.

Lemma elem_of_events_of i ev tr : ev ∈ events_of i tr <-> (i, ev) ∈ tr.
Proof.
  unfold events_of. rewrite list_elem_of_omap. split.
  - intros ([j ev'] & H & E). case_bool_decide; [|done]. by injection E as ->; subst.
  - intros H. exists (i, ev). by rewrite bool_decide_eq_true_2.
Qed.

Lemma written_by_cons i j t w :
  written_by i ((j, t) :: w)
  = if bool_decide (j = i) then t :: written_by i w else written_by i w.
Proof. unfold written_by. simpl. by case_bool_decide. Qed.

Lemma written_by_events i tr :
  written_by i (writes tr)
  = omap (fun ev => match ev with EvWrite t => Some t | EvRead _ => None end)
      (events_of i tr).
Proof.
  induction tr as [|[j [v|t]] tr IH]; [done| |].
  - change (writes ((j, EvRead v) :: tr)) with (writes tr). rewrite IH.
    destruct (decide (j = i)) as [->|H];
      [by rewrite events_of_here | by rewrite events_of_other].
  - change (writes ((j, EvWrite t) :: tr)) with ((j, t) :: writes tr).
    rewrite written_by_cons, IH.
    destruct (decide (j = i)) as [->|H].
    + by rewrite events_of_here, bool_decide_eq_true_2.
    + by rewrite events_of_other, bool_decide_eq_false_2.
Qed.

(** Two handlers that each wrote once: the writes come in one of the
    two orders. *)
Lemma two_writers (w : list (nat * str)) (a b : str) :
  (forall j t, (j, t) ∈ w -> j < 2) ->
  written_by 0 w = [a] -> written_by 1 w = [b] ->
  w = [(0, a); (1, b)] \/ w = [(1, b); (0, a)].
Proof.
  intros Hj H0 H1.
  destruct w as [|[i t] w]; [done|].
  assert (i = 0 \/ i = 1) as [-> | ->]
    by (specialize (Hj i t ltac:(left)); lia);
    rewrite written_by_cons in H0, H1; cbn in H0, H1.
  - injection H0 as -> H0.
    destruct w as [|[j u] w]; [done|].
    assert (j = 0 \/ j = 1) as [-> | ->]
      by (specialize (Hj j u ltac:(right; left)); lia);
      rewrite written_by_cons in H0, H1; cbn in H0, H1; [done|].
    injection H1 as -> H1.
    destruct w as [|[k x] w]; [by left|].
    assert (k = 0 \/ k = 1) as [-> | ->]
      by (specialize (Hj k x ltac:(right; right; left)); lia);
      rewrite written_by_cons in H0, H1; done.
  - injection H1 as -> H1.
    destruct w as [|[j u] w]; [done|].
    assert (j = 0 \/ j = 1) as [-> | ->]
      by (specialize (Hj j u ltac:(right; left)); lia);
      rewrite written_by_cons in H0, H1; cbn in H0, H1; [|done].
    injection H0 as -> H0.
    destruct w as [|[k x] w]; [by right|].
    assert (k = 0 \/ k = 1) as [-> | ->]
      by (specialize (Hj k x ltac:(right; right; left)); lia);
      rewrite written_by_cons in H0, H1; done.
Qed.

(** A handler that replied with a topic found in its code has written
    that topic, once. *)
Lemma replied_handler_wrote {host : Host} req sched m ts m' ts' tr i p code topic :
  run_schedule sched m ts = (m', ts', tr) ->
  ts !! i = Some (kafka_agent req) ->
  ts' !! i = Some (Ret (Returns p)) ->
  Response.executed_code p = JStr code ->
  extract_topic_from_code code = Some topic ->
  written_by i (writes tr) = [topic].
Proof.
  intros Hrun Hi Hi' Hcode Hx.
  destruct (run_schedule_thread _ _ _ _ _ _ _ _ Hrun Hi) as (p' & Hp' & T).
  rewrite Hi' in Hp'. injection Hp' as <-.
  rewrite written_by_events.
  destruct (kafka_agent_trace_done _ _ _ T) as
    [(m0 & _ & Hr)|[(m0 & v & c & ex & res & _ & Hc & [= ->])
                   |[(m0 & t & v1 & v & c & ex & res & -> & Hc & [= ->])
                    |(m0 & t & v1 & _ & _ & Hr)]]].
  - by destruct (Hr p).
  - simpl in Hcode. injection Hcode as ->. congruence.
  - simpl in Hcode. injection Hcode as ->. rewrite Hx in Hc. by injection Hc as ->.
  - by destruct (Hr p).
Qed.

(** C9.  Two requests in flight together, one whose code holds the topic
    [a] and one whose code holds the topic [b], both answered: whatever
    the order of their steps, each has written once, and the slot ends
    with the topic written last. *)
Theorem last_writer_wins (h1 h2 : Host) (r1 r2 : PromptRequest)
    (sched : list nat) (m m' : option str) (tr : list (nat * event))
    (p1 p2 : Response.t) (c1 c2 a b : str) :
  run_schedule sched m [@kafka_agent h1 r1; @kafka_agent h2 r2]
  = (m', [Ret (Returns p1); Ret (Returns p2)], tr) ->
  Response.executed_code p1 = JStr c1 -> extract_topic_from_code c1 = Some a ->
  Response.executed_code p2 = JStr c2 -> extract_topic_from_code c2 = Some b ->
  (writes tr = [(0, a); (1, b)] /\ m' = Some b)
  \/ (writes tr = [(1, b); (0, a)] /\ m' = Some a).
Proof.
  intros Hrun Hc1 Hx1 Hc2 Hx2.
  pose proof (@replied_handler_wrote h1 r1 _ _ _ _ _ _ 0 p1 c1 a Hrun eq_refl eq_refl Hc1 Hx1)
    as W0.
  pose proof (@replied_handler_wrote h2 r2 _ _ _ _ _ _ 1 p2 c2 b Hrun eq_refl eq_refl Hc2 Hx2)
    as W1.
  pose proof (run_schedule_last_write _ _ _ _ _ _ Hrun) as ->.
  assert (forall j t, (j, t) ∈ writes tr -> j < 2) as Hj.
  { intros j t H. apply elem_of_writes in H.
    by apply (run_schedule_names _ _ _ _ _ _ _ _ Hrun) in H. }
  unfold last_write.
  destruct (two_writers _ _ _ Hj W0 W1) as [-> | ->]; [by left | by right].
Qed.

(** C10.  Among any requests in flight, after any number of steps: every
    value written is an extracted topic and is not empty; so the slot,
    which starts absent or holding a text that is not empty, is again
    absent or holds such a text; and once it holds a text it keeps
    holding one. *)
Theorem last_topic_invariant (reqs : list (Host * PromptRequest))
    (sched : list nat) (m m' : option str)
    (ts' : list (prog Response.t)) (tr : list (nat * event)) :
  run_schedule sched m (map (fun hr => @kafka_agent hr.1 hr.2) reqs) = (m', ts', tr) ->
  (m = None \/ exists t, m = Some t /\ t <> []) ->
  (forall i t, (i, EvWrite t) ∈ tr -> t <> [])
  /\ (m' = None \/ exists t, m' = Some t /\ t <> [])
  /\ (is_Some m -> is_Some m').
Proof.
  intros Hrun Hm.
  assert (forall i t, (i, EvWrite t) ∈ tr -> t <> []) as Hw.
  { intros i t H.
    pose proof (run_schedule_names _ _ _ _ _ _ _ _ Hrun H) as Hi.
    destruct (lookup_lt_is_Some_2 _ _ Hi) as [p Hp].
    pose proof Hp as Hp0. rewrite list_lookup_fmap in Hp0.
    destruct (reqs !! i) as [[h r]|]; [|done]. injection Hp0 as <-.
    destruct (run_schedule_thread _ _ _ _ _ _ _ _ Hrun Hp) as (p' & _ & T).
    apply elem_of_events_of in H.
    pose proof (@kafka_agent_trace_writes h r _ _ T t H). by destruct t. }
  split; [exact Hw|].
  rewrite (run_schedule_last_write _ _ _ _ _ _ Hrun). unfold last_write.
  destruct (last (writes tr)) as [[i t]|] eqn:L.
  - apply last_Some_elem_of, elem_of_writes, Hw in L.
    split; [right; by exists t | by eexists].
  - done.
Qed.



(** A read returns what was written last before it. *)
Lemma run_schedule_reads {A} sched m (ts : list (prog A)) m' ts' tr :
  run_schedule sched m ts = (m', ts', tr) ->
  forall tr1 i v tr2, tr = tr1 ++ (i, EvRead v) :: tr2 -> v = last_write m tr1.
Proof.
  revert m ts m' ts' tr.
  induction sched as [|j sched IH]; intros m ts m' ts' tr; simpl.
  - intros [= <- <- <-] tr1 i v tr2 E. by destruct tr1.
  - destruct (ts !! j ≫= thread_step m) as [[[ev m1] q']|] eqn:E.
    + destruct (run_schedule sched m1 (<[j:=q']> ts)) as [[m2 ts2] tr'] eqn:R.
      intros [= <- <- <-] tr1 i v tr2 Etr.
      destruct (ts !! j) as [q|]; [|done]. simpl in E.
      destruct tr1 as [|x tr1].
      * destruct q as [r|k|t k]; by simplify_eq/=.
      * injection Etr as <- Etr.
        rewrite (IH _ _ _ _ _ R _ _ _ _ Etr). symmetry. by eapply thread_step_slot.
    + apply IH.
Qed.



End Memory.

(** Handled one at a time: after a request that wrote [topic], the later
    requests that write nothing each read [topic] first, as the remembered
    topic they pass on, and leave it in the slot. *)
Lemma serve_remembers (topic : str) (rest : list (Host * PromptRequest)) :
  Forall (fun hr => forall t,
            EvWrite t ∉ (run_prog (@kafka_agent hr.1 hr.2) (Some topic)).2) rest ->
  (serve (Some topic) rest).2 = Some topic
  /\ Forall (fun x => head x.2 = Some (EvRead (Some topic))) (serve (Some topic) rest).1.
Proof.
  induction 1 as [|[h req] rest Hw _ [IHm IHr]]; [by split|].
  cbn [serve].
  change (forall t, EvWrite t ∉ (run_prog (@kafka_agent h req) (Some topic)).2) in Hw.
  destruct (@kafka_agent_run h req (Some topic)) as
    [(r & _ & _ & E)|[(c & ex & res & _ & _ & E)
                     |[(c & ex & res & t & _ & _ & E)|(r & t & _ & _ & E)]]];
    rewrite E in Hw |- *.
  - destruct (serve (Some topic) rest) as [rs m']. simpl in *.
    split; [done | by constructor].
  - destruct (serve (Some topic) rest) as [rs m']. simpl in *.
    split; [done | by constructor].
  - exfalso. apply (Hw t). simpl. set_solver.
  - exfalso. apply (Hw t). simpl. set_solver.
Qed.

(** Code that does not end: no result, and no reply. *)
Example endless_code_hangs :
  @run_code_safely (Sample.host []) "while True: pass" = Hangs
  /\ (run_prog (@kafka_agent (Sample.host (Sample.completion_text "while True: pass" "ok"))
                  {| prompt := "wait" |}) None).1.1 = Hangs.
Proof. split; vm_compute; reflexivity. Qed.



(** The two orders of completion, on the sample requests. *)
Lemma last_writer_wins_witness :
  (writes [(0, EvRead None); (1, EvRead None); (0, EvWrite ("a" : str));
           (1, EvWrite ("b" : str)); (0, EvRead (Some ("b" : str)));
           (0, EvRead (Some ("b" : str))); (1, EvRead (Some ("b" : str)));
           (1, EvRead (Some ("b" : str)))]
   = [(0, ("a" : str)); (1, ("b" : str))] /\ Some ("b" : str) = Some ("b" : str))
  \/ (writes [(0, EvRead None); (1, EvRead None); (0, EvWrite ("a" : str));
              (1, EvWrite ("b" : str)); (0, EvRead (Some ("b" : str)));
              (0, EvRead (Some ("b" : str))); (1, EvRead (Some ("b" : str)));
              (1, EvRead (Some ("b" : str)))]
      = [(1, ("b" : str)); (0, ("a" : str))] /\ Some ("b" : str) = Some ("a" : str)).
Proof.
  refine (last_writer_wins Sample.request_a.1 Sample.request_b.1 Sample.request_a.2 Sample.request_b.2
            [0; 1; 0; 1; 0; 0; 1; 1] None (Some ("b" : str)) _
            (Sample.reply Sample.request_a "topic_name = 'a'" "b")
            (Sample.reply Sample.request_b "topic_name = 'b'" "b")
            "topic_name = 'a'" "topic_name = 'b'" "a" "b" _ _ _ _ _);
    vm_compute; reflexivity.
Defined.

Example first_writer_loses :
  (run_schedule [1; 0; 1; 0; 0; 0; 1; 1] None
     [@kafka_agent Sample.request_a.1 Sample.request_a.2; @kafka_agent Sample.request_b.1 Sample.request_b.2]).1.1
  = Some ("a" : str).
Proof. vm_compute. reflexivity. Qed.

Lemma last_topic_invariant_witness :
  (forall i t,
      (i, EvWrite t) ∈
        [(0, EvRead None); (1, EvRead None); (0, EvWrite ("a" : str));
         (1, EvWrite ("b" : str)); (0, EvRead (Some ("b" : str)))] ->
      t <> [])
  /\ (Some ("b" : str) = None \/ exists t, Some ("b" : str) = Some t /\ t <> [])
  /\ (is_Some (None : option str) -> is_Some (Some ("b" : str))).
Proof.
  refine (last_topic_invariant [Sample.request_a; Sample.request_b] [0; 1; 0; 1; 0] None
            (Some ("b" : str)) _ _ _ _).
  - vm_compute. reflexivity.
  - by left.
Defined.

(* ================================================================== *)
(** * Further properties *)

(** ** More on the extractor *)

Module QuoteFacts.
Import TopicRe TopicReFacts.

(** Brings both sides of an equation between texts to one bracketing. *)
Ltac flatten_apps :=
  repeat first [rewrite <- !app_assoc | progress simpl]; try done.

(** A text is free of quotes, or splits at its first quote. *)
Lemma first_quote s :
  Forall (fun c => is_quote c = false) s
  \/ exists a q r,
       s = a ++ q :: r /\ Forall (fun c => is_quote c = false) a /\ is_quote q = true.
Proof.
  induction s as [|c s [IH|(a & q & r & -> & Fa & Hq)]].
  - left. constructor.
  - destruct (is_quote c) eqn:Hc.
    + right. by exists [], c, s.
    + left. by constructor.
  - right. destruct (is_quote c) eqn:Hc.
    + by exists [], c, (a ++ q :: r).
    + exists (c :: a), q, r. split_and!; [done | by constructor | done].
Qed.

(** The split at the first quote is the only one of its kind. *)
Lemma first_quote_unique a q r a' q' r' :
  Forall (fun c => is_quote c = false) a -> Forall (fun c => is_quote c = false) a' ->
  is_quote q = true -> is_quote q' = true ->
  a ++ q :: r = a' ++ q' :: r' -> a = a' /\ q = q' /\ r = r'.
Proof.
  intros Fa. revert a'. induction Fa as [|c a Hc Fa IH]; intros a' Fa' Hq Hq' E.
  - destruct Fa' as [|c' a' Hc' Fa']; simpl in E.
    + by injection E as -> ->.
    + injection E as -> _. congruence.
  - destruct Fa' as [|c' a' Hc' Fa']; simpl in E.
    + injection E as -> _. congruence.
    + injection E as -> E. destruct (IH a' Fa' Hq Hq' E) as (-> & -> & ->). done.
Qed.

(** A text with two quotes splits at its first two quotes. *)
Lemma first_two_quotes x q1 y q2 z :
  is_quote q1 = true -> is_quote q2 = true ->
  exists a q b q' r,
    x ++ q1 :: y ++ q2 :: z = a ++ q :: b ++ q' :: r
    /\ Forall (fun c => is_quote c = false) a /\ is_quote q = true
    /\ Forall (fun c => is_quote c = false) b /\ is_quote q' = true.
Proof.
  intros H1 H2.
  assert (forall s w, is_quote w = true ->
            exists b q' r, y ++ w :: s = b ++ q' :: r
              /\ Forall (fun c => is_quote c = false) b /\ is_quote q' = true) as Hy.
  { intros s w Hw. destruct (first_quote y) as [Fy|(b & q' & r & -> & Fb & Hq')].
    - by exists y, w, s.
    - exists b, q', (r ++ w :: s). split_and!; try done. flatten_apps. }
  destruct (first_quote x) as [Fx|(a & q & r & -> & Fa & Hq)].
  - destruct (Hy z q2 H2) as (b & q' & r & E & Fb & Hq'). rewrite E.
    by exists x, q1, b, q', r.
  - destruct (first_quote r) as [Fr|(b & q' & r' & -> & Fb & Hq')].
    + exists a, q, r, q1, (y ++ q2 :: z). split_and!; try done. flatten_apps.
    + exists a, q, b, q', (r' ++ q1 :: y ++ q2 :: z).
      split_and!; try done. flatten_apps.
Qed.

(** What stands before the first quote of a match holds no quote. *)
Lemma name_and_equals_no_quote ws1 ws2 :
  Forall (fun c => isspace c = true) ws1 -> Forall (fun c => isspace c = true) ws2 ->
  Forall (fun c => is_quote c = false) (("topic_name" : str) ++ ws1 ++ ("=" : str) ++ ws2).
Proof.
  intros F1 F2.
  assert (forall c, isspace c = true -> is_quote c = false) as Hs.
  { intros c Hc. destruct (is_quote c) eqn:Hq; [|done].
    apply quote_not_space in Hq. congruence. }
  repeat (apply Forall_app; split); try (eapply Forall_impl; eauto; fail).
  - by repeat constructor.
  - by repeat constructor.
Qed.

Lemma assignment_at_app code pre lit more :
  assignment_at code pre lit -> assignment_at (code ++ more) pre lit.
Proof.
  intros (ws1 & ws2 & q1 & q2 & post & -> & H).
  exists ws1, ws2, q1, q2, (post ++ more). split; [|done].
  flatten_apps.
Qed.

(** A match that starts in a text holding two quotes ends in it. *)
Lemma assignment_at_closed u more lit x q1 y q2 z :
  u = x ++ q1 :: y ++ q2 :: z -> is_quote q1 = true -> is_quote q2 = true ->
  assignment_at (u ++ more) [] lit -> assignment_at u [] lit.
Proof.
  intros Eu H1 H2 (ws1 & ws2 & p1 & p2 & post & E & F1 & F2 & Hp1 & Hp2 & Hne & Fl).
  destruct (first_two_quotes x q1 y q2 z H1 H2) as (a & q & b & q' & r & E2 & Fa & Hq & Fb & Hq').
  rewrite Eu, E2 in E |- *. clear Eu E2.
  pose proof (name_and_equals_no_quote ws1 ws2 F1 F2) as FP.
  assert (a ++ q :: (b ++ q' :: (r ++ more))
          = (("topic_name" : str) ++ ws1 ++ ("=" : str) ++ ws2) ++ p1 :: (lit ++ p2 :: post))
    as E3.
  { transitivity ((a ++ q :: b ++ q' :: r) ++ more); [flatten_apps|].
    rewrite E. flatten_apps. }
  destruct (first_quote_unique _ _ _ _ _ _ Fa FP Hq Hp1 E3) as (-> & -> & E4).
  destruct (first_quote_unique _ _ _ _ _ _ Fb Fl Hq' Hp2 E4) as (-> & -> & _).
  exists ws1, ws2, p1, p2, r. split_and!; try done.
  flatten_apps.
Qed.

Lemma assignment_at_two_quotes code pre lit :
  assignment_at code pre lit ->
  exists x q1 y q2 z,
    code = x ++ q1 :: y ++ q2 :: z /\ is_quote q1 = true /\ is_quote q2 = true.
Proof.
  intros (ws1 & ws2 & q1 & q2 & post & -> & _ & _ & H1 & H2 & _).
  exists (pre ++ ("topic_name" : str) ++ ws1 ++ ("=" : str) ++ ws2), q1, lit, q2, post.
  split_and!; try done. flatten_apps.
Qed.

Lemma search_app code more t :
  search code = Some t -> search (code ++ more) = Some t.
Proof.
  induction code as [|c code IH]; cbn [search].
  - intros H. by vm_compute in H.
  - destruct (match_here (c :: code)) as [g|] eqn:M.
    + intros [= ->]. apply match_here_iff in M.
      apply (assignment_at_app _ _ _ more), match_here_iff in M.
      rewrite <- app_comm_cons in M |- *. cbn [search]. by rewrite M.
    + intros H. rewrite <- app_comm_cons. cbn [search].
      destruct (match_here (c :: code ++ more)) as [g|] eqn:M'; [|by apply IH].
      exfalso. apply match_here_iff in M'.
      destruct (search_Some _ _ H) as (pre & A & _).
      destruct (assignment_at_two_quotes _ _ _ A) as (x & q1 & y & q2 & z & E & H1 & H2).
      apply (assignment_at_closed (c :: code) more g (c :: x) q1 y q2 z) in M';
        [|by rewrite E|done|done].
      apply match_here_iff in M'. congruence.
Qed.

End QuoteFacts.

Section ExtractorMore.
Import TopicRe TopicReFacts QuoteFacts.

(** No match starts inside a text free of quotes that stands before an
    assignment. *)
Lemma search_after_quote_free pre s t :
  Forall (fun c => is_quote c = false) pre ->
  match_here s = Some t -> search (pre ++ s) = Some t.
Proof.
  intros Fp M. induction Fp as [|c pre Hc Fp IH]; simpl.
  - destruct s; cbn [search]; by rewrite M.
  - cbn [search]. destruct (match_here (c :: pre ++ s)) as [l|] eqn:M'; [|exact IH].
    exfalso. apply match_here_iff in M, M'.
    destruct M as (ws1 & ws2 & q1 & q2 & post & -> & F1 & F2 & H1 & H2 & _).
    destruct M' as (ws1' & ws2' & p1 & p2 & post' & E & F1' & F2' & Hp1 & _).
    assert (((c :: pre) ++ ("topic_name" : str) ++ ws1 ++ ("=" : str) ++ ws2)
              ++ q1 :: (t ++ q2 :: post)
            = (("topic_name" : str) ++ ws1' ++ ("=" : str) ++ ws2')
                ++ p1 :: (l ++ p2 :: post')) as E'.
    { transitivity (c :: pre ++ [] ++ ("topic_name" : str) ++ ws1 ++ ("=" : str) ++ ws2
                      ++ q1 :: t ++ q2 :: post); [flatten_apps|].
      rewrite E. flatten_apps. }
    apply first_quote_unique in E' as (E' & _ & _); try done.
    2:{ apply Forall_app. split; [by constructor|].
        by apply name_and_equals_no_quote. }
    2:{ by apply name_and_equals_no_quote. }
    apply (f_equal (fun x => x !! S (length pre))) in E'.
    change (((c :: pre) ++ ("topic_name" : str) ++ ws1 ++ ("=" : str) ++ ws2)
              !! S (length pre))
      with ((pre ++ "t"%char :: ("opic_name" : str) ++ ws1 ++ ("=" : str) ++ ws2)
              !! length pre) in E'.
    rewrite list_lookup_middle in E' by done.
    change ((("topic_name" : str) ++ ws1' ++ ("=" : str) ++ ws2') !! S (length pre))
      with ((("opic_name" : str) ++ ws1' ++ ("=" : str) ++ ws2') !! length pre) in E'.
    symmetry in E'. apply list_elem_of_lookup_2 in E'.
    rewrite !elem_of_app in E'. destruct E' as [E'|[E'|[E'|E']]].
    + by repeat (apply elem_of_cons in E' as [E'|E']; [done|]); apply elem_of_nil in E'.
    + by apply (proj1 (Forall_forall _ _) F1') in E'.
    + by repeat (apply elem_of_cons in E' as [E'|E']; [done|]); apply elem_of_nil in E'.
    + by apply (proj1 (Forall_forall _ _) F2') in E'.
Qed.

(** X1.  A topic found by the extractor is never empty, holds no quote,
    and stands in the code between two quotes, after the name. *)
Theorem extract_topic_between_quotes (code t : str) :
  extract_topic_from_code code = Some t ->
  t <> []
  /\ Forall (fun c => is_quote c = false) t
  /\ occurs_in ("topic_name" : str) code
  /\ exists before q1 q2 after,
       code = before ++ q1 :: t ++ q2 :: after
       /\ is_quote q1 = true /\ is_quote q2 = true.
Proof.
  intros H. destruct (search_Some _ _ H) as (pre & A & _).
  destruct A as (ws1 & ws2 & q1 & q2 & post & -> & _ & _ & H1 & H2 & Hne & Fl).
  split_and!; try done.
  - exists pre, (ws1 ++ ("=" : str) ++ ws2 ++ q1 :: t ++ q2 :: post). flatten_apps.
  - exists (pre ++ ("topic_name" : str) ++ ws1 ++ ("=" : str) ++ ws2), q1, q2, post.
    split_and!; try done. flatten_apps.
Qed.

(** X2.  A text that starts with statements free of quotes and goes on
    with the assignment of a quoted literal yields that literal, whatever
    the blanks around the equals sign, the kind of each quote and the
    text that follows. *)
Theorem extract_topic_of_assignment (pre ws1 ws2 : str) (q1 q2 : ascii) (t post : str) :
  Forall (fun c => is_quote c = false) pre ->
  Forall (fun c => isspace c = true) ws1 ->
  Forall (fun c => isspace c = true) ws2 ->
  is_quote q1 = true -> is_quote q2 = true ->
  t <> [] -> Forall (fun c => is_quote c = false) t ->
  extract_topic_from_code
    (pre ++ ("topic_name" : str) ++ ws1 ++ ("=" : str) ++ ws2 ++ q1 :: t ++ q2 :: post)
  = Some t.
Proof.
  intros Fp F1 F2 H1 H2 Hne Ft. apply search_after_quote_free; [done|].
  apply match_here_iff. by exists ws1, ws2, q1, q2, post.
Qed.

(** X3.  A text without the name, or without any quote, yields nothing. *)
Theorem extract_topic_needs_name_and_quote (code : str) :
  ~ occurs_in ("topic_name" : str) code \/ Forall (fun c => is_quote c = false) code ->
  extract_topic_from_code code = None.
Proof.
  intros H. apply search_None. intros pre lit A.
  destruct A as (ws1 & ws2 & q1 & q2 & post & -> & _ & _ & H1 & _).
  destruct H as [H|H].
  - apply H. exists pre, (ws1 ++ ("=" : str) ++ ws2 ++ q1 :: lit ++ q2 :: post).
    flatten_apps.
  - rewrite Forall_forall in H. specialize (H q1). rewrite H in H1; [done|].
    rewrite !elem_of_app. do 5 right. apply elem_of_cons. by left.
Qed.

(** X4.  Text added after the code never changes a topic found in it. *)
Theorem extract_topic_stable_under_append (code more t : str) :
  extract_topic_from_code code = Some t ->
  extract_topic_from_code (code ++ more) = Some t.
Proof. apply search_app. Qed.

End ExtractorMore.

Lemma extract_topic_between_quotes_witness :
  ("a" : str) <> []
  /\ Forall (fun c => TopicRe.is_quote c = false) ("a" : str)
  /\ occurs_in ("topic_name" : str) ("topic_name = 'a'" : str)
  /\ exists before q1 q2 after,
       ("topic_name = 'a'" : str) = before ++ q1 :: ("a" : str) ++ q2 :: after
       /\ TopicRe.is_quote q1 = true /\ TopicRe.is_quote q2 = true.
Proof. apply (extract_topic_between_quotes "topic_name = 'a'" "a"). reflexivity. Defined.

Lemma extract_topic_of_assignment_witness :
  extract_topic_from_code
    (("import os; " : str) ++ ("topic_name" : str) ++ (" " : str) ++ ("=" : str)
       ++ ([] : str) ++ dq :: ("orders" : str) ++ sq :: ("; print(1)" : str))
  = Some ("orders" : str).
Proof.
  apply (extract_topic_of_assignment "import os; " " " [] dq sq "orders" "; print(1)");
    try done; by repeat constructor.
Defined.

Lemma extract_topic_needs_name_and_quote_witness :
  extract_topic_from_code "print(1)" = None.
Proof.
  apply extract_topic_needs_name_and_quote. right. by repeat constructor.
Defined.

Lemma extract_topic_stable_under_append_witness :
  extract_topic_from_code (("topic_name='a'" : str) ++ ("; topic_name='b'" : str))
  = Some ("a" : str).
Proof.
  apply (extract_topic_stable_under_append "topic_name='a'" "; topic_name='b'" "a").
  reflexivity.
Defined.


(** ** More on the completion parser *)

Section ParserMore.
Context {host : Host}.
Import PyStrFacts ParserFacts QuoteFacts.

Lemma strip_by_free p s :
  Forall (fun c => p c = false) s -> strip_by p s = s.
Proof.
  intros F. destruct s as [|a s]; [done|].
  destruct (last (a :: s)) as [z|] eqn:L; [|by apply last_None in L].
  apply (strip_by_solid p _ a z); try done.
  - by inversion F.
  - rewrite Forall_forall in F. by apply F, last_Some_elem_of.
Qed.

Lemma elem_of_strip_by p s c : c ∈ strip_by p s -> c ∈ s.
Proof.
  destruct (strip_by_split p s) as (l & r & E & _). intros H. rewrite E.
  rewrite !elem_of_app. auto.
Qed.

(** A blank is not a backtick, nor a letter of the tag. *)
Lemma blank_not_backtick c : isspace c = true -> bool_decide (c ∈ ("`" : str)) = false.
Proof.
  intros H. rewrite backtick_class. case_bool_decide; [by subst c|done].
Qed.

Lemma endswith_free s :
  Forall (fun c => bool_decide (c ∈ ("`" : str)) = false) s -> endswith s "```" = false.
Proof.
  intros F. destruct (last s) as [z|] eqn:L.
  - apply (endswith_last s "`"%char ("``" : str) z L). intros <-.
    rewrite Forall_forall in F. by apply last_Some_elem_of, F in L.
  - by apply last_None in L as ->.
Qed.

(** X5.  Between the fences of a block tagged json (in any letter case)
    the blanks around the content do not matter, none at all included:
    what is decoded is the stripped content.  In a block with no tag the
    blanks stay: what is decoded is the content with them around it. *)
Theorem strip_fences_blanks (tag ws1 T ws2 : str) :
  Forall (fun c => isspace c = true) ws1 ->
  Forall (fun c => isspace c = true) ws2 ->
  Forall (fun c => bool_decide (c ∈ ("`" : str)) = false) T ->
  (lower tag = ("json" : str) -> strip_fences (fenced_with tag ws1 T ws2) = strip T)
  /\ (ws1 <> [] -> strip_fences (fenced_with [] ws1 T ws2) = ws1 ++ T ++ ws2).
Proof.
  intros F1 F2 FT.
  assert (forall t, Forall (fun c => bool_decide (c ∈ ("`" : str)) = false) t ->
            strip_chars "`" (fenced_with t ws1 T ws2) = t ++ ws1 ++ T ++ ws2) as Hchars.
  { intros t Ft. unfold strip_chars, fenced_with.
    replace (("```" : str) ++ t ++ ws1 ++ T ++ ws2 ++ ("```" : str))
      with (("```" : str) ++ (t ++ ws1 ++ T ++ ws2) ++ ("```" : str))
      by flatten_apps.
    rewrite strip_by_app by (repeat constructor; by rewrite backtick_class).
    apply strip_by_free. repeat (apply Forall_app; split); try done;
      eapply Forall_impl; eauto using blank_not_backtick. }
  assert (startswith (fenced_with tag ws1 T ws2) "```" = true) as Hs1
    by apply (startswith_app _ ("```" : str)).
  assert (startswith (fenced_with [] ws1 T ws2) "```" = true) as Hs2
    by apply (startswith_app _ ("```" : str)).
  split.
  - intros Htag. unfold strip_fences. rewrite Hs1.
    destruct tag as [|a [|b [|c [|d [|]]]]]; try discriminate.
    injection Htag as Ha Hb Hc Hd.
    rewrite Hchars.
    2:{ repeat apply Forall_cons_2; try apply Forall_nil_2;
          rewrite backtick_class; case_bool_decide; try done; by subst. }
    replace (lower ([a; b; c; d] ++ ws1 ++ T ++ ws2))
      with (("json" : str) ++ lower (ws1 ++ T ++ ws2))
      by (simpl; by rewrite Ha, Hb, Hc, Hd).
    rewrite startswith_app. cbn [slice_from drop app]. rewrite drop_0.
    replace (strip (ws1 ++ T ++ ws2)) with (strip T)
      by (symmetry; by apply (strip_by_app isspace)).
    rewrite endswith_free; [done|].
    rewrite Forall_forall in FT |- *. intros x Hx. by apply FT, (elem_of_strip_by isspace).
  - intros Hne. unfold strip_fences. rewrite Hs2.
    rewrite (Hchars []) by constructor. rewrite app_nil_l.
    destruct ws1 as [|w ws1]; [done|]. pose proof (Forall_inv F1) as Hw.
    replace (startswith (lower ((w :: ws1) ++ T ++ ws2)) "json") with false.
    2:{ simpl. case_bool_decide as E; [|done]. exfalso.
        apply (f_equal isspace) in E. revert E Hw. unfold lower_char.
        destruct (_ || _)%bool eqn:Hc; [|by intros <- ?].
        intros _ Hw'. unfold isspace in Hw'. revert Hc Hw'.
        generalize (N_of_ascii w). intros n.
        rewrite ?orb_true_iff, ?andb_true_iff, ?negb_true_iff.
        rewrite ?N.leb_le, ?N.eqb_eq, ?N.eqb_neq. lia. }
    rewrite endswith_free; [done|].
    repeat (apply Forall_app; split); try done;
      eapply Forall_impl; eauto using blank_not_backtick.
Qed.

(** X6.  Blanks before and after the completion change nothing. *)
Theorem decode_completion_blanks (l content r : str) :
  Forall (fun c => isspace c = true) l ->
  Forall (fun c => isspace c = true) r ->
  decode_completion (l ++ content ++ r) = decode_completion content.
Proof.
  intros Fl Fr. unfold decode_completion, strip. by rewrite strip_by_app.
Qed.

End ParserMore.

Lemma strip_fences_blanks_witness :
  strip_fences (fenced_with "JSON" [] "{}" " ") = ("{}" : str)
  /\ strip_fences (fenced_with [] [nl] "{}" [nl]) = nl :: "{}" ++ [nl].
Proof.
  split.
  - refine (proj1 (@strip_fences_blanks "JSON" [] "{}" " " _ _ _) _);
      try done; by repeat constructor.
  - refine (proj2 (@strip_fences_blanks [] [nl] "{}" [nl] _ _ _) _);
      try done; by repeat constructor.
Defined.

Lemma decode_completion_blanks_witness :
  @decode_completion (Sample.host []) (nl :: " " ++ Sample.no_code_text ++ [nl])
  = @decode_completion (Sample.host []) Sample.no_code_text.
Proof.
  apply (@decode_completion_blanks (Sample.host []) (nl :: " ") Sample.no_code_text [nl]);
    by repeat constructor.
Defined.

(** ** The system prompt *)

Section Prompt.
Context {host : Host}.

Lemma occurs_in_later (x l s : str) : occurs_in x s -> occurs_in x (l ++ s).
Proof.
  intros (pre & post & ->). exists (l ++ pre), post. by rewrite <- app_assoc.
Qed.

Lemma occurs_in_line (x a b : str) (c : ascii) (rest : str) :
  occurs_in x ((c :: a ++ x ++ b) ++ rest).
Proof.
  exists (c :: a), (b ++ rest). simpl. by rewrite <- !app_assoc.
Qed.

(** X7.  The prompt sent to the service carries the address of the
    brokers and the remembered topic as it is, whatever text it is; with
    nothing remembered it carries the word None. *)
Theorem system_prompt_carries (remembered_topic : option str) :
  occurs_in BOOTSTRAP_SERVERS (system_prompt remembered_topic)
  /\ occurs_in (format_topic remembered_topic) (system_prompt remembered_topic)
  /\ (forall t, remembered_topic = Some t -> occurs_in t (system_prompt remembered_topic))
  /\ (remembered_topic = None ->
      occurs_in ("None" : str) (system_prompt remembered_topic)).
Proof.
  assert (occurs_in (format_topic remembered_topic) (system_prompt remembered_topic)) as Ht.
  { unfold system_prompt, join_lines. cbn [map concat].
    repeat first [ apply occurs_in_line | apply occurs_in_later ]. }
  split_and!.
  - unfold system_prompt, join_lines. cbn [map concat].
    repeat first [ apply occurs_in_line | apply occurs_in_later ].
  - done.
  - by intros t ->.
  - by intros ->.
Qed.

(** X8.  Two remembered topics give the same prompt only when they are
    the same text, and nothing remembered gives the prompt of a
    remembered topic named None: the service is asked the same. *)
Theorem system_prompt_tells_topics_apart (m1 m2 : option str) :
  (system_prompt m1 = system_prompt m2 <-> format_topic m1 = format_topic m2)
  /\ (forall t1 t2, m1 = Some t1 -> m2 = Some t2 ->
        system_prompt m1 = system_prompt m2 -> t1 = t2)
  /\ (forall prompt, ask_openai_for_code prompt None
                     = ask_openai_for_code prompt (Some ("None" : str))).
Proof.
  assert (system_prompt m1 = system_prompt m2 -> format_topic m1 = format_topic m2) as Hinj.
  { unfold system_prompt, join_lines. cbn [map concat]. intros H.
    repeat apply app_inv_head in H.
    rewrite <- !app_comm_cons, <- !app_assoc in H.
    injection H as H. repeat apply app_inv_head in H.
    by apply app_inv_tail in H. }
  split_and!.
  - split; [done|]. unfold system_prompt. by intros ->.
  - intros t1 t2 -> ->. apply Hinj.
  - done.
Qed.

End Prompt.

Lemma system_prompt_tells_topics_apart_witness :
  @system_prompt (Sample.host []) (Some ("a" : str))
  <> @system_prompt (Sample.host []) (Some ("b" : str)).
Proof.
  intros E.
  by pose proof (proj1 (proj2 (@system_prompt_tells_topics_apart (Sample.host [])
                                 (Some ("a" : str)) (Some ("b" : str))))
                   _ _ eq_refl eq_refl E).
Defined.

(** ** More on the handler *)

Section HandlerMore.
Context {host : Host}.

(** X9.  A handler that runs alone replies exactly when the completion
    is decoded (the debug line printed) to an object whose [code] is a
    string that is not empty, running it returns and, when the code
    holds a topic, the log line of that topic is printed.  The reply
    then has the prompt of the request, the explanation of the object
    (the empty string when it has none), the code and what running it
    returned; its topic is the one found in the code, or else the
    remembered one, and this is also what the slot holds afterwards. *)
Theorem kafka_agent_reply (req : PromptRequest) (m m' : option str)
    (p : Response.t) (tr : list event) :
  run_prog (kafka_agent req) m = (Returns p, m', tr)
  <-> exists d code res,
        ask_openai_for_code (prompt req) m = Returns (JDict d)
        /\ d !! ("code" : str) = Some (JStr code)
        /\ nonempty code = true
        /\ run_code_safely code = Returns res
        /\ (forall topic, extract_topic_from_code code = Some topic ->
              py_print [("Remembering topic: " : str) ++ topic] = Returns tt)
        /\ p = {| Response.prompt := prompt req;
                  Response.topic_in_use := topic_after m code;
                  Response.explanation := default (JStr "") (d !! ("explanation" : str));
                  Response.executed_code := JStr code;
                  Response.result := res |}
        /\ m' = topic_after m code
        /\ tr = EvRead m ::
                match extract_topic_from_code code with
                | Some topic => [EvWrite topic; EvRead (Some topic); EvRead (Some topic)]
                | None => [EvRead m]
                end.
Proof.
  rewrite run_kafka_agent. unfold kafka_agent_from, topic_after. split.
  - destruct (ask_openai_for_code (prompt req) m) as [ai|e|] eqn:Hask; cbn.
    2:{ destruct (is_Exception e); [|done]. unfold report.
        by destruct (exc_str_cases e) as [[s ->]|[[e' ->]| ->]]. }
    2:{ done. }
    destruct ai as [| | | | |l|d]; try done. cbn.
    match goal with
    | |- context [truthy (default JNull ?o)] => destruct o as [c|] eqn:Hcode; [|done]
    end.
    cbn. destruct (truthy c) eqn:Ht; [|done]. cbn.
    destruct c as [| | | |code|l|d']; try done. cbn.
    destruct (run_code_safely code) as [res|e|] eqn:Hrun; cbn; [| |done].
    2:{ destruct (is_Exception e); [|done]. unfold report.
        by destruct (exc_str_cases e) as [[s ->]|[[e' ->]| ->]]. }
    destruct (extract_topic_from_code code) as [topic|] eqn:Hx; cbn.
    + rewrite (extract_topic_nonempty _ _ Hx). cbn.
      destruct (py_print _) as [[]|e|] eqn:Hp; cbn.
      * intros [= <- <- <-]. exists d, code, res. rewrite Hx. split_and!; try done.
        intros topic' Ht'. simplify_eq. exact Hp.
      * destruct (is_Exception e); [|done]. unfold report.
        by destruct (exc_str_cases e) as [[s ->]|[[e' ->]| ->]].
      * done.
    + intros [= <- <- <-]. exists d, code, res. rewrite Hx. by split_and!.
  - intros (d & code & res & Hask & Hcode & Hne & Hrun & Hlog & -> & -> & ->).
    rewrite Hask. cbn. cbn in Hcode. rewrite Hcode. cbn. rewrite Hne. cbn.
    rewrite Hrun. cbn.
    destruct (extract_topic_from_code code) as [topic|] eqn:Hx; cbn; [|done].
    rewrite (extract_topic_nonempty _ _ Hx). cbn.
    specialize (Hlog topic eq_refl). cbn in Hlog. by rewrite Hlog.
Qed.

(** X10.  When the call of the completion service raises, nothing is
    decoded or run: an exception that derives from [Exception] and has a
    text becomes status 500 with that text as detail, any other leaves
    the handler as it is; the slot is read once and not written. *)
Theorem kafka_agent_service_failure (req : PromptRequest) (m : option str) (e : pyexc) :
  chat_completion (system_prompt m) (prompt req) = Raises e ->
  (forall msg, is_Exception e = true -> exc_str e = Returns msg ->
     run_prog (kafka_agent req) m = (Raises (HTTPException 500 msg), m, [EvRead m]))
  /\ (is_Exception e = false ->
      run_prog (kafka_agent req) m = (Raises e, m, [EvRead m])).
Proof.
  intros Hc. rewrite run_kafka_agent. unfold kafka_agent_from, ask_openai_for_code.
  rewrite Hc. cbn. split.
  - intros msg -> Hmsg. unfold report. by rewrite Hmsg.
  - by intros ->.
Qed.

(** X11.  A completion that decodes to something else than an object (a
    list, a number, a string, null) fails the request with status 500;
    the detail is the text of the [AttributeError] of [get], and the
    slot is not written. *)
Theorem kafka_agent_not_an_object (req : PromptRequest) (m : option str) (v : json) :
  ask_openai_for_code (prompt req) m = Returns v ->
  (forall d, v <> JDict d) ->
  run_prog (kafka_agent req) m
  = (Raises (HTTPException 500 ("'" ++ type_name v ++ "' object has no attribute 'get'")),
     m, [EvRead m]).
Proof.
  intros Hask Hv. rewrite run_kafka_agent. unfold kafka_agent_from. rewrite Hask.
  destruct v as [| | | | | |d]; try done. by destruct (Hv d).
Qed.

(** X12.  A [code] that counts as true but is not a string (a number, a
    list, an object) fails the request with status 500 once the search
    for the topic is reached; the detail is the text of its [TypeError],
    and the slot is not written. *)
Theorem kafka_agent_code_not_text (req : PromptRequest) (m : option str)
    (d : gmap str json) (c : json) :
  ask_openai_for_code (prompt req) m = Returns (JDict d) ->
  d !! ("code" : str) = Some c ->
  truthy c = true ->
  (forall s, c <> JStr s) ->
  run_prog (kafka_agent req) m
  = (Raises (HTTPException 500 ("expected string or bytes-like object, got '"
                                ++ type_name c ++ "'")),
     m, [EvRead m]).
Proof.
  intros Hask Hcode Ht Hc. rewrite run_kafka_agent. unfold kafka_agent_from.
  rewrite Hask. cbn. cbn in Hcode. rewrite Hcode. cbn. rewrite Ht. cbn.
  destruct c as [| | | |s| |]; try done. by destruct (Hc s).
Qed.

(** X13.  The handler does not bound or contain the run of the code: an
    exception of the code that does not derive from [Exception] leaves
    the handler as it is, not as status 500, and code that does not
    return keeps the request from ending; the slot is not written. *)
Theorem kafka_agent_run_escapes (req : PromptRequest) (m : option str)
    (d : gmap str json) (code : str) :
  ask_openai_for_code (prompt req) m = Returns (JDict d) ->
  d !! ("code" : str) = Some (JStr code) ->
  nonempty code = true ->
  (forall e, py_exec code = Raised e -> is_Exception e = false ->
     run_prog (kafka_agent req) m = (Raises e, m, [EvRead m]))
  /\ (py_exec code = Diverged ->
      run_prog (kafka_agent req) m = (Hangs, m, [EvRead m])).
Proof.
  intros Hask Hcode Hne. rewrite run_kafka_agent. unfold kafka_agent_from.
  rewrite Hask. cbn. cbn in Hcode. rewrite Hcode. cbn. rewrite Hne. cbn.
  unfold run_code_safely. split.
  - intros e -> He. cbn. rewrite He. cbn. by rewrite He.
  - by intros ->.
Qed.

End HandlerMore.

Lemma kafka_agent_service_failure_witness :
  run_prog (@kafka_agent (Sample.host_down (PyExc true (inl ("Connection error." : str))))
              {| prompt := "retention of a" |}) (Some ("a" : str))
  = (Raises (HTTPException 500 ("Connection error." : str)),
     Some ("a" : str), [EvRead (Some ("a" : str))]).
Proof.
  refine (proj1 (@kafka_agent_service_failure
                   (Sample.host_down (PyExc true (inl ("Connection error." : str))))
                   {| prompt := "retention of a" |} (Some ("a" : str)) _ _) _ _ _);
    reflexivity.
Defined.

Lemma kafka_agent_not_an_object_witness :
  run_prog (@kafka_agent Sample.host_of_list {| prompt := "retention of a" |}) None
  = (Raises (HTTPException 500 ("'list' object has no attribute 'get'" : str)),
     None, [EvRead None]).
Proof.
  refine (@kafka_agent_not_an_object Sample.host_of_list
            {| prompt := "retention of a" |} None (JList [JInt 1]) _ _);
    [vm_compute; reflexivity | done].
Defined.

Lemma kafka_agent_code_not_text_witness :
  run_prog (@kafka_agent (Sample.host Sample.int_code_text) {| prompt := "retention of a" |})
    None
  = (Raises (HTTPException 500 ("expected string or bytes-like object, got 'int'" : str)),
     None, [EvRead None]).
Proof.
  refine (@kafka_agent_code_not_text (Sample.host Sample.int_code_text)
            {| prompt := "retention of a" |} None
            {[("code" : str) := JInt 5]} (JInt 5) _ _ _ _);
    try done; vm_compute; reflexivity.
Defined.

Lemma kafka_agent_run_escapes_witness :
  run_prog (@kafka_agent (Sample.host (Sample.completion_text "while True: pass" "ok"))
              {| prompt := "wait" |}) (Some ("a" : str))
  = (Hangs, Some ("a" : str), [EvRead (Some ("a" : str))]).
Proof.
  refine (proj2 (@kafka_agent_run_escapes
                   (Sample.host (Sample.completion_text "while True: pass" "ok"))
                   {| prompt := "wait" |} (Some ("a" : str))
                   (<[("code" : str) := JStr "while True: pass"]>
                      {[("explanation" : str) := JStr "ok"]})
                   "while True: pass" _ _ _) _);
    vm_compute; reflexivity.
Defined.

(** ** More on the executor *)

Section ExecutorMore.
Context {host : Host}.

Lemma raised_by_body_inv (code : str) (e : pyexc) :
  raised_by_body code e
  <-> match py_exec code with
      | Completed stdout local_vars =>
          strip stdout = []
          /\ exists v, local_vars !! ("result" : str) = Some v /\ py_str v = Raises e
      | Unreadable e' => e' = e
      | Raised e' => e' = e
      | Diverged => False
      end.
Proof.
  unfold raised_by_body. destruct (py_exec code) as [so lv|e1|e1|]; split.
  - intros [[=]|[[=]|(s' & l' & v & [= <- <-] & Hs & Hr & Hv)]]. eauto.
  - intros (Hs & v & Hr & Hv). right; right. by exists so, lv, v.
  - by intros [[=]|[[= ->]|(s' & l' & v & [=] & _)]].
  - intros ->. by right; left.
  - by intros [[= ->]|[[=]|(s' & l' & v & [=] & _)]].
  - intros ->. by left.
  - by intros [[=]|[[=]|(s' & l' & v & [=] & _)]].
  - done.
Qed.

(** What the [except] clause of [run_code_safely] makes of a raised
    exception. *)
Lemma caught_raises (e1 e : pyexc) :
  try_except (Raises e1)
    (fun e => exc_str e ≫= (fun msg => Returns
       (("Error while executing AI code: " : str) ++ msg))) = Raises e
  <-> (e1 = e /\ is_Exception e = false)
      \/ (is_Exception e1 = true /\ exc_str e1 = Raises e).
Proof.
  cbn [try_except]. destruct (is_Exception e1) eqn:He1.
  - destruct (exc_str e1) as [s|e'|]; cbn; split; try done.
    + intros [[<- He]|[_ [=]]]. congruence.
    + intros [= ->]. by right.
    + intros [[<- He]|[_ [= ->]]]; [congruence|done].
    + intros [[<- He]|[_ [=]]]. congruence.
  - split.
    + intros [= ->]. by left.
    + by intros [[-> _]|[[=] _]].
Qed.

Lemma caught_hangs (e1 : pyexc) :
  try_except (Raises e1)
    (fun e => exc_str e ≫= (fun msg => Returns
       (("Error while executing AI code: " : str) ++ msg))) = Hangs
  <-> is_Exception e1 = true /\ exc_str e1 = Hangs.
Proof.
  cbn [try_except]. destruct (is_Exception e1) eqn:He1.
  - destruct (exc_str e1) as [s|e'|]; cbn; split; try done; by intros [_ [=]].
  - split; [done|]. by intros [[=] _].
Qed.

(** X14.  [run_code_safely] lets an exception out in two cases only:
    one raised inside the [try] (by the code, by the reading of the
    buffer or by [str] of [result]) does not derive from [Exception];
    or one that does was caught, and taking its text raised.  It does
    not return in three cases only: the code or the reading of the
    buffer does not return; [str] of [result] does not; or the text of
    a caught exception does not. *)
Theorem run_code_safely_raises_only (code : str) :
  (forall e,
     run_code_safely code = Raises e
     <-> (raised_by_body code e /\ is_Exception e = false)
         \/ (exists e0, raised_by_body code e0 /\ is_Exception e0 = true
               /\ exc_str e0 = Raises e))
  /\ (run_code_safely code = Hangs
      <-> py_exec code = Diverged
          \/ (exists stdout local_vars v,
                py_exec code = Completed stdout local_vars
                /\ strip stdout = []
                /\ local_vars !! ("result" : str) = Some v
                /\ py_str v = Hangs)
          \/ (exists e0, raised_by_body code e0 /\ is_Exception e0 = true
                /\ exc_str e0 = Hangs)).
Proof.
  split.
  - intros e. setoid_rewrite raised_by_body_inv. unfold run_code_safely.
    destruct (py_exec code) as [so lv|e1|e1|].
    + destruct (nonempty (strip so)) eqn:Hne.
      { assert (strip so <> []) by (by destruct (strip so)).
        split; [done|]. by intros [[[? _] _]|(e0 & [? _] & _)]. }
      assert (strip so = []) as Hs by (by destruct (strip so)).
      destruct (lv !! list_ascii_of_string "result") as [v|] eqn:Hres; cbn [default id].
      2:{ split; [done|].
          by intros [[[_ (v & [=] & _)] _]|(e0 & [_ (v & [=] & _)] & _)]. }
      destruct (py_str v) as [t|e1|] eqn:Hv.
      * split; [done|].
        intros [[[_ (v' & [= <-] & Hv')] _]|(e0 & [_ (v' & [= <-] & Hv')] & _)];
          congruence.
      * rewrite caught_raises. split.
        -- intros [[-> He]|[He Hs']]; [left|right; exists e1]; eauto 8.
        -- intros [[[_ (v' & [= <-] & Hv')] He]|(e0 & [_ (v' & [= <-] & Hv')] & He & Hs')];
             rewrite Hv in Hv'; injection Hv' as ->; eauto.
      * split; [done|].
        intros [[[_ (v' & [= <-] & Hv')] _]|(e0 & [_ (v' & [= <-] & Hv')] & _)];
          congruence.
    + rewrite caught_raises. split.
      * intros [[-> He]|[He Hs']]; [left|right; exists e1]; eauto.
      * intros [[-> He]|(e0 & -> & He & Hs')]; eauto.
    + rewrite caught_raises. split.
      * intros [[-> He]|[He Hs']]; [left|right; exists e1]; eauto.
      * intros [[-> He]|(e0 & -> & He & Hs')]; eauto.
    + split; [done|]. by intros [[[] _]|(e0 & [] & _)].
  - setoid_rewrite raised_by_body_inv. unfold run_code_safely.
    destruct (py_exec code) as [so lv|e1|e1|].
    + destruct (nonempty (strip so)) eqn:Hne.
      { assert (strip so <> []) by (by destruct (strip so)).
        split; [done|].
        by intros [[=]|[(s' & l' & v & [= <- <-] & ? & _)|(e0 & [? _] & _)]]. }
      assert (strip so = []) as Hs by (by destruct (strip so)).
      destruct (lv !! list_ascii_of_string "result") as [v|] eqn:Hres; cbn [default id].
      2:{ split; [done|].
          intros [[=]|[(s' & l' & v & [= <- <-] & _ & Hr & _)
                      |(e0 & [_ (v & [=] & _)] & _)]].
          cbn in Hr, Hres. congruence. }
      destruct (py_str v) as [t|e1|] eqn:Hv.
      * split; [done|].
        intros [[=]|[(s' & l' & v' & [= <- <-] & _ & Hr & Hv')
                    |(e0 & [_ (v' & [= <-] & Hv')] & _)]]; [|congruence].
        cbn in Hr, Hres. congruence.
      * rewrite caught_hangs. split.
        -- intros [He Hs']. right; right. exists e1. eauto 8.
        -- intros [[=]|[(s' & l' & v' & [= <- <-] & _ & Hr & Hv')
                       |(e0 & [_ (v' & [= <-] & Hv')] & He & Hs')]].
           ++ cbn in Hr, Hres. congruence.
           ++ rewrite Hv in Hv'. by injection Hv' as ->.
      * split; [|done]. intros _. right; left. by exists so, lv, v.
    + rewrite caught_hangs. split.
      * intros [He Hs']. right; right. by exists e1.
      * by intros [[=]|[(s' & l' & v & [=] & _)|(e0 & -> & He & Hs')]].
    + rewrite caught_hangs. split.
      * intros [He Hs']. right; right. by exists e1.
      * by intros [[=]|[(s' & l' & v & [=] & _)|(e0 & -> & He & Hs')]].
    + split; [by left|done].
Qed.

End ExecutorMore.

(** ** Accesses of the slot *)

Section Accesses.
Context {host : Host}.

(** X15.  Whatever the other handlers do, a handler accesses the slot
    at most four times, its first access is a read, and a write is its
    second access only: it writes at most once, a topic that is not
    empty. *)
Theorem kafka_agent_accesses (req : PromptRequest) (evs : list event)
    (p' : prog Response.t) :
  thread_trace (kafka_agent req) evs p' ->
  length evs <= 4
  /\ (forall i t, evs !! i = Some (EvWrite t) -> i = 1 /\ t <> []).
Proof.
  rewrite kafka_agent_unfold. intros H.
  assert (forall (l : list event) t, (forall i, l !! i <> Some (EvWrite t)) ->
            forall v i, (EvRead v :: l) !! i <> Some (EvWrite t)) as Hskip.
  { intros l t Hl v [|i]; [done|]. apply Hl. }
  inversion H as [| k m0 evs' ? H' |]; subst; [split; [simpl; lia|done]|].
  destruct (kafka_agent_from_form req m0)
    as [r' Hr|code ex res Hne Hx|code ex res u k Hne Hx Hk].
  - inversion H'; subst. split; [simpl; lia|]. by intros [|[|i]] t.
  - inversion H' as [| ? v ? ? H2 |]; subst; [split; [simpl; lia|by intros [|[|i]] t]|].
    inversion H2; subst. split; [simpl; lia|]. by intros [|[|[|i]]] t.
  - assert (u <> []) as Hu.
    { apply extract_topic_nonempty in Hx. by destruct u. }
    inversion H' as [| | ? ? ? ? H2]; subst; [split; [simpl; lia|by intros [|[|i]] t]|].
    inversion H2 as [| ? v1 ? ? H3 |]; subst.
    { split; [simpl; lia|]. intros [|[|[|i]]] t; try done. by intros [= <-]. }
    rewrite Hk in H3.
    destruct (after_log_cases req code ex res
                (py_print [("Remembering topic: " : str) ++ format_topic v1]))
      as [[_ E]|[_ (r' & _ & E)]]; rewrite E in H3.
    + inversion H3 as [| ? v ? ? H4 |]; subst.
      { split; [simpl; lia|]. intros [|[|[|[|i]]]] t; try done. by intros [= <-]. }
      inversion H4; subst.
      split; [simpl; lia|]. intros [|[|[|[|[|i]]]]] t; try done. by intros [= <-].
    + inversion H3; subst.
      split; [simpl; lia|]. intros [|[|[|[|i]]]] t; try done. by intros [= <-].
Qed.

End Accesses.

Lemma kafka_agent_accesses_witness :
  length [EvRead None; EvWrite ("a" : str)] <= 4
  /\ (forall i t, [EvRead None; EvWrite ("a" : str)] !! i = Some (EvWrite t)
        -> i = 1 /\ t <> []).
Proof.
  apply (@kafka_agent_accesses Sample.request_a.1 Sample.request_a.2
           [EvRead None; EvWrite ("a" : str)]
           (ReadTopic (fun _ => ReadTopic (fun last_topic =>
              Ret (Returns {| Response.prompt := prompt Sample.request_a.2;
                              Response.topic_in_use := last_topic;
                              Response.explanation := JStr "ok";
                              Response.executed_code := JStr "topic_name = 'a'";
                              Response.result := "<no result>" |}))))).
  apply trace_read. vm_compute. apply trace_write. apply trace_done.
Defined.

(** ** Requests in sequence and in flight together *)




Section Provenance.
Context {host : Host}.

(** X17.  However the handlers in flight interleave, the topic of a reply
    is not made up: it is what the slot held at the start, or a topic
    that one of the handlers wrote. *)
Theorem reply_topic_provenance (req : PromptRequest) (sched : list nat)
    (m m' : option str) (ts ts' : list (prog Response.t))
    (tr : list (nat * event)) (i : nat) (p : Response.t) :
  run_schedule sched m ts = (m', ts', tr) ->
  ts !! i = Some (kafka_agent req) ->
  ts' !! i = Some (Ret (Returns p)) ->
  Response.topic_in_use p = m
  \/ exists j t, (j, EvWrite t) ∈ tr /\ Response.topic_in_use p = Some t.
Proof.
  intros Hrun Hi Hi'.
  destruct (run_schedule_thread _ _ _ _ _ _ _ _ Hrun Hi) as (p' & Hp' & T).
  rewrite Hi' in Hp'. injection Hp' as <-.
  assert ((i, EvRead (Response.topic_in_use p)) ∈ tr) as Hin.
  { apply elem_of_events_of.
    destruct (kafka_agent_trace_done _ _ _ T) as
      [(m0 & _ & Hr)|[(m0 & v & c & ex & res & -> & _ & [= ->])
                     |[(m0 & t & v1 & v & c & ex & res & -> & _ & [= ->])
                      |(m0 & t & v1 & _ & _ & Hr)]]].
    - by destruct (Hr p).
    - cbn. set_solver.
    - cbn. set_solver.
    - by destruct (Hr p). }
  apply list_elem_of_split in Hin as (tr1 & tr2 & ->).
  rewrite (run_schedule_reads _ _ _ _ _ _ Hrun tr1 i _ tr2 eq_refl).
  unfold last_write. destruct (last (writes tr1)) as [[j t]|] eqn:L; [|by left].
  right. exists j, t. split; [|done].
  apply last_Some_elem_of, elem_of_writes in L. set_solver.
Qed.

End Provenance.


(** A request that fails at the log line is seen by the next one: the
    second request is told the topic the first one wrote. *)
Example failed_request_after_write_visible :
  (serve None [(Sample.host_ascii Sample.accent_text, {| prompt := "retention?" |});
               (Sample.host Sample.no_code_text, {| prompt := "and now?" |})]).1
  = [(Raises (HTTPException 500
        ("'ascii' codec can't encode character '\xe9' in position 22: "
         ++ "ordinal not in range(128)")),
      [EvRead None; EvWrite Sample.accent_topic; EvRead (Some Sample.accent_topic)]);
     (Raises (HTTPException 500 ("500: AI did not return code" : str)),
      [EvRead (Some Sample.accent_topic)])].
Proof. vm_compute. reflexivity. Qed.

Lemma reply_topic_provenance_witness :
  Response.topic_in_use (Sample.reply Sample.request_a "topic_name = 'a'" "b") = None
  \/ exists j t,
       (j, EvWrite t) ∈ [(0, EvRead None); (1, EvRead None); (0, EvWrite ("a" : str));
                         (1, EvWrite ("b" : str)); (0, EvRead (Some ("b" : str)));
                         (0, EvRead (Some ("b" : str))); (1, EvRead (Some ("b" : str)));
                         (1, EvRead (Some ("b" : str)))]
       /\ Response.topic_in_use (Sample.reply Sample.request_a "topic_name = 'a'" "b")
          = Some t.
Proof.
  refine (@reply_topic_provenance Sample.request_a.1 Sample.request_a.2
            [0; 1; 0; 1; 0; 0; 1; 1] None (Some ("b" : str))
            [@kafka_agent Sample.request_a.1 Sample.request_a.2;
             @kafka_agent Sample.request_b.1 Sample.request_b.2]
            [Ret (Returns (Sample.reply Sample.request_a "topic_name = 'a'" "b"));
             Ret (Returns (Sample.reply Sample.request_b "topic_name = 'b'" "b"))]
            _ 0 (Sample.reply Sample.request_a "topic_name = 'a'" "b") _ _ _);
    vm_compute; reflexivity.
Defined.

(** ** Blocks without a tag *)

Lemma strip_by_head p s c : head (strip_by p s) = Some c -> p c = false.
Proof.
  unfold strip_by. rewrite <- PyStrFacts.lstrip_by_rstrip_by.
  destruct (lstrip_by p (rstrip_by p s)) as [|a t] eqn:E; [done|].
  intros [= <-]. by eapply PyStrFacts.lstrip_by_head.
Qed.

Lemma strip_by_last p s c : last (strip_by p s) = Some c -> p c = false.
Proof.
  unfold strip_by, rstrip_by. rewrite last_reverse.
  destruct (lstrip_by p (reverse (lstrip_by p s))) as [|a t] eqn:E; [done|].
  intros [= <-]. by eapply PyStrFacts.lstrip_by_head.
Qed.

(** X18.  Of a block whose content does not start with the tag json only
    the backticks at its two ends are dropped: the test for a closing
    fence never holds there, since no backtick is left at the end, and
    the blanks inside the fences stay. *)
Theorem strip_fences_untagged (raw : str) :
  startswith raw "```" = true ->
  startswith (lower (strip_chars "`" raw)) "json" = false ->
  strip_fences raw = strip_chars "`" raw
  /\ (forall c, head (strip_fences raw) = Some c \/ last (strip_fences raw) = Some c ->
        c <> "`"%char).
Proof.
  intros Hs Hj.
  assert (strip_fences raw = strip_chars "`" raw) as E.
  { unfold strip_fences. rewrite Hs. cbn zeta. rewrite Hj.
    assert (endswith (strip_chars "`" raw) "```" = false) as ->; [|done].
    destruct (last (strip_chars "`" raw)) as [z|] eqn:L.
    - apply (ParserFacts.endswith_last _ "`"%char ("``" : str) z L).
      intros <-. apply strip_by_last in L. by rewrite backtick_class in L.
    - by apply last_None in L as ->. }
  split; [done|]. rewrite E. unfold strip_chars.
  intros c [H|H] ->.
  - apply strip_by_head in H. by rewrite backtick_class in H.
  - apply strip_by_last in H. by rewrite backtick_class in H.
Qed.

Lemma strip_fences_untagged_witness :
  strip_fences ("```" ++ nl :: "{}" ++ nl :: "```") = strip_chars "`" ("```" ++ nl :: "{}" ++ nl :: "```")
  /\ (forall c, head (strip_fences ("```" ++ nl :: "{}" ++ nl :: "```")) = Some c
                \/ last (strip_fences ("```" ++ nl :: "{}" ++ nl :: "```")) = Some c ->
        c <> "`"%char).
Proof.
  apply (strip_fences_untagged ("```" ++ nl :: "{}" ++ nl :: "```")); vm_compute; reflexivity.
Defined.
